(** * Distributed HER training coordinator ([her.py])

    A shallow embedding of the three functions of [her.py] that carry the
    coordinator's logic:

    - [mpi_average]  : the cross-worker metric aggregation,
    - [learn]        : the derivation of the per-rank seed,
    - [train]        : the epoch loop with its checkpoint policy, its logging
                       calls and the seed-decorrelation assertion.

    Conventions.  Python integers are unbounded, so they are embedded as [Z]
    (loop counts and MPI ranks, which are never negative, as [nat]).  Metric
    values are numpy floats in the program; here they are exact rationals
    ([Q]), so that sums and quotients are the mathematical ones and the only
    operations that matter besides them (truthiness, [>=], [!=]) are the
    decidable comparisons of [Q].  A collective MPI call is embedded as a
    function of the list of the arguments the ranks pass to it, rank [r]
    holding position [r] of that list.  The events of [train] carry the
    periodic checkpoint path as it is for a directory name without braces;
    what [str.format] makes of other directory names is described by
    [Formatting.format], and the statements about periodic paths assume
    [Formatting.brace_free]. *)

From Stdlib Require Import String Ascii List Bool Arith ZArith QArith Qminmax Lia Lqa.
From Stdlib Require Import DecimalString DecimalNat.
Import ListNotations.

(** ** Metric aggregation *)

Module Aggregator.

Local Open Scope Q_scope.

(** The argument of [mpi_average]: a bare scalar or a Python list of scalars
    (the two cases that [isinstance(value, list)] tells apart). *)
Inductive value : Type :=
| Scalar (x : Q)
| Values (xs : list Q).

(** Python truthiness of a number: everything but zero. *)
Definition truthy (x : Q) : bool := negb (Qeq_bool x 0).

(** The builtin [any] on a list of numbers. *)
Definition any (xs : list Q) : bool := existsb truthy xs.

(** Lines 16-17: [if not isinstance(value, list): value = [value]]. *)
Definition as_list (v : value) : list Q :=
  match v with
  | Scalar x => [x]
  | Values xs => xs
  end.

(** Lines 16-19: the array that is handed to [mpi_moments]. *)
Definition local_array (v : value) : list Q :=
  let value := as_list v in
  if negb (any value) then [0] else value.

(** [x.sum(axis=0)] of a one-dimensional array. *)
Definition sumQ (xs : list Q) : Q := fold_right Qplus 0 xs.

(** What one rank puts into the reduction: the sum of its array and the
    number of its entries. *)
Definition localsum (x : list Q) : Q * Z := (sumQ x, Z.of_nat (length x)).

(** [comm.allreduce(localsum, op=MPI.SUM)]: the component-wise sum over the
    ranks. *)
Definition allreduce_sum (ls : list (Q * Z)) : Q * Z :=
  fold_right (fun l acc => (fst l + fst acc, (snd l + snd acc)%Z)) (0, 0%Z) ls.

(** Modelled from the spec: [baselines.common.mpi_moments.mpi_moments] is
    imported by [her.py] and is not part of the sources.  The aggregator is
    described as computing "the global mean across all workers' values",
    returning "a single mean value (plus, optionally, standard deviation and
    total count)": every rank contributes the sum and the length of its
    array, the contributions are added up over the ranks, and the mean is the
    global sum divided by the global count.  The standard deviation is left
    out, since [mpi_average] only reads component [0] of the result. *)
Definition mpi_mean (comm : list (list Q)) : Q * Z :=
  let globalsum := allreduce_sum (map localsum comm) in
  (fst globalsum / inject_Z (snd globalsum), snd globalsum).

Definition mpi_moments_mean (comm : list (list Q)) : Q := fst (mpi_mean comm).

(** The number of values that enter the global mean. *)
Definition mpi_moments_count (comm : list (list Q)) : Z := snd (mpi_mean comm).

(** [mpi_average], called collectively: [comm] lists the argument of every
    rank, and the result is the one every rank gets back (line 20). *)
Definition mpi_average (comm : list value) : Q :=
  mpi_moments_mean (map local_array comm).

(** The count behind [mpi_average]'s mean. *)
Definition mpi_average_count (comm : list value) : Z :=
  mpi_moments_count (map local_array comm).

(** The arithmetic mean of a list, the reference the aggregation is compared
    with. *)
Definition mean (xs : list Q) : Q := sumQ xs / inject_Z (Z.of_nat (length xs)).

End Aggregator.

(** ** Seed derivation *)

Module Seeding.

Local Open Scope Z_scope.

(** Line 135 of [learn]:
    [rank_seed = seed + 1000000 * rank if seed is not None else None]. *)
Definition rank_seed (seed : option Z) (rank : nat) : option Z :=
  match seed with
  | Some s => Some (s + 1000000 * Z.of_nat rank)
  | None => None
  end.

End Seeding.

(** ** The training loop *)

Module Training.

Import Aggregator.
Local Open Scope string_scope.
Local Open Scope Q_scope.

(** The two [RolloutWorker] objects [train] is given. *)
Inductive worker : Type := rollout_worker | evaluator.

(** The texts handed to [logger.info], with the values formatted into them. *)
Inductive message : Type :=
| Training                                 (* "Training..." *)
| Testing                                  (* "Testing" *)
| NewBest (rate : Q) (path : string)       (* 'New best success rate: {}. Saving policy to {} ...' *)
| SavingPeriodic (path : string)           (* 'Saving periodic policy to {} ...' *)
| BestSoFar (rate : Q).                    (* "The best success rate so far ", best_success_rate *)

(** A value recorded in the logger's table. *)
Inductive tabular : Type :=
| Epoch (epoch : nat)
| Metric (x : Q).

(** The calls [train] makes on its collaborators, in program order. *)
Inductive event : Type :=
| LoggerInfo (m : message)
| RecordTabular (key : string) (val : tabular)
| DumpTabular
| SavePolicy (path : string)
| InitDemoBuffer (demo_file : option string)
| ClearHistory (w : worker)
| GenerateRollouts (w : worker)
| StoreEpisode
| PolicyTrain
| UpdateTargetNet.

(** The keyword arguments of [train], and [policy.bc_loss]. *)
Record params : Type := {
  n_epochs : nat;
  n_test_rollouts : nat;
  n_cycles : nat;
  n_batches : nat;
  policy_save_interval : Z;
  save_path : option string;
  demo_file : option string;
  bc_loss : Z
}.

(** What the collaborators and the other ranks supply in one epoch.  A metric
    comes with the local value of every rank, in rank order: the arguments of
    one collective [mpi_average] call.  [local_uniform r] is the number rank
    [r] draws from [np.random.uniform]. *)
Record epoch_data : Type := {
  test_logs : list (string * list value);
  train_logs : list (string * list value);
  policy_logs : list (string * list value);
  current_success_rate : list value;
  local_uniform : nat -> Q
}.

(** [if save_path:] -- [None] and the empty string are falsy. *)
Definition configured (save_path : option string) : bool :=
  match save_path with
  | None => false
  | Some dir => negb (String.eqb dir "")
  end.

(** The directory the three paths of lines 31-33 are built from; they are
    only built, and only used, when [save_path] is truthy. *)
Definition save_dir (save_path : option string) : string :=
  match save_path with
  | None => ""
  | Some dir => dir
  end.

(** [path.endswith('/')]. *)
Fixpoint endswith_sep (s : string) : bool :=
  match s with
  | EmptyString => false
  | String c EmptyString => Ascii.eqb c "/"
  | String _ rest => endswith_sep rest
  end.

(** [os.path.join(a, b)] for a relative file name [b]. *)
Definition join (a b : string) : string :=
  if String.eqb a "" || endswith_sep a then a ++ b else a ++ "/" ++ b.

(** [str(epoch)]. *)
Definition str (epoch : nat) : string := NilZero.string_of_uint (Nat.to_uint epoch).

(** Lines 31-33 and 97.  The periodic path is the joined path
    [os.path.join(save_path, 'policy_{}.pkl')] run through [str.format] as
    a whole (see [Formatting.format] below).  For a directory without
    braces that fills the placeholder of the file name and nothing else,
    which is what [periodic_policy_path] gives; a directory with braces is
    outside this definition, and the statements about periodic paths assume
    [Formatting.brace_free]. *)
Definition latest_policy_path (dir : string) : string := join dir "policy_latest.pkl".
Definition best_policy_path (dir : string) : string := join dir "policy_best.pkl".
Definition periodic_policy_path (dir : string) (epoch : nat) : string :=
  join dir ("policy_" ++ str epoch ++ ".pkl").

(** Line 39. *)
Definition initial_best_success_rate : Q := -1.

(** Lines 52-60: one cycle. *)
Definition cycle (cfg : params) : list event :=
  [GenerateRollouts rollout_worker; StoreEpisode]
    ++ repeat PolicyTrain (n_batches cfg) ++ [UpdateTargetNet].

(** Lines 50-60. *)
Definition collect (cfg : params) : list event :=
  ClearHistory rollout_worker :: concat (repeat (cycle cfg) (n_cycles cfg)).

(** Lines 63-67. *)
Definition test (cfg : params) : list event :=
  [LoggerInfo Testing; ClearHistory evaluator]
    ++ repeat (GenerateRollouts evaluator) (n_test_rollouts cfg).

(** One of the three loops of lines 73-82. *)
Definition record_logs (logs : list (string * list value)) : list event :=
  map (fun kv => RecordTabular (fst kv) (Metric (mpi_average (snd kv)))) logs.

(** Lines 70-82. *)
Definition record (d : epoch_data) (epoch : nat) : list event :=
  RecordTabular "epoch" (Epoch epoch)
    :: record_logs (test_logs d) ++ record_logs (train_logs d)
    ++ record_logs (policy_logs d).

(** Lines 85-86. *)
Definition dump (rank : nat) : list event :=
  if (rank =? 0)%nat then [DumpTabular] else [].

(** Line 91: the guard of the best-update. *)
Definition is_new_best (rank : nat) (cfg : params) (success_rate best : Q) : bool :=
  (rank =? 0)%nat && Qle_bool best success_rate && configured (save_path cfg).

(** Lines 91-95: the tracker after the best-update, and its calls. *)
Definition update_best (rank : nat) (cfg : params) (success_rate best : Q) : Q :=
  if is_new_best rank cfg success_rate best then success_rate else best.

Definition save_best (rank : nat) (cfg : params) (success_rate best : Q) : list event :=
  if is_new_best rank cfg success_rate best then
    [LoggerInfo (NewBest success_rate (best_policy_path (save_dir (save_path cfg))));
     SavePolicy (best_policy_path (save_dir (save_path cfg)));
     SavePolicy (latest_policy_path (save_dir (save_path cfg)))]
  else [].

(** Line 96: the guard of the periodic save.  [and] is short-circuit, so the
    remainder is only taken for a positive interval. *)
Definition is_periodic (rank : nat) (cfg : params) (epoch : nat) : bool :=
  (rank =? 0)%nat && (0 <? policy_save_interval cfg)%Z
    && (Z.of_nat epoch mod policy_save_interval cfg =? 0)%Z
    && configured (save_path cfg).

(** Lines 96-99. *)
Definition save_periodic (rank : nat) (cfg : params) (epoch : nat) : list event :=
  if is_periodic rank cfg epoch then
    [LoggerInfo (SavingPeriodic (periodic_policy_path (save_dir (save_path cfg)) epoch));
     SavePolicy (periodic_policy_path (save_dir (save_path cfg)) epoch)]
  else [].

(** [MPI.COMM_WORLD.Bcast(buf, root)]: afterwards the buffer of every rank
    holds what the root's buffer held. *)
Definition Bcast (buffers : nat -> Q) (root : nat) : nat -> Q :=
  fun _ => buffers root.

(** Lines 103-108: [true] when the assertion passes. *)
Definition decorrelated (rank : nat) (d : epoch_data) : bool :=
  let root_uniform := Bcast (local_uniform d) 0 in
  if negb (rank =? 0)%nat
  then negb (Qeq_bool (local_uniform d rank) (root_uniform rank))
  else true.

(** One pass through the body of the epoch loop (lines 49-108). *)
Record step : Type := {
  emitted : list event;
  tracker : Q;
  passed : bool
}.

Definition epoch_step (rank : nat) (cfg : params) (d : epoch_data)
    (epoch : nat) (best_success_rate : Q) : step :=
  let success_rate := mpi_average (current_success_rate d) in
  let best := update_best rank cfg success_rate best_success_rate in
  {| emitted :=
       collect cfg ++ test cfg ++ record d epoch ++ dump rank
         ++ save_best rank cfg success_rate best_success_rate
         ++ save_periodic rank cfg epoch
         ++ [LoggerInfo (BestSoFar best)];
     tracker := best;
     passed := decorrelated rank d |}.

(** How a call of [train] ends. *)
Inductive outcome : Type :=
| Returned
| AssertionError (epoch : nat).

Record run : Type := {
  trace : list event;
  best_success_rate : Q;
  result : outcome
}.

(** The loop of line 47, from epoch [epoch] on with [todo] epochs to go. *)
Fixpoint epochs (rank : nat) (cfg : params) (world : nat -> epoch_data)
    (epoch todo : nat) (best : Q) : run :=
  match todo with
  | O => {| trace := []; best_success_rate := best; result := Returned |}
  | S todo' =>
      let s := epoch_step rank cfg (world epoch) epoch best in
      if passed s then
        let r := epochs rank cfg world (S epoch) todo' (tracker s) in
        {| trace := emitted s ++ trace r;
           best_success_rate := best_success_rate r;
           result := result r |}
      else
        {| trace := emitted s;
           best_success_rate := tracker s;
           result := AssertionError epoch |}
  end.

(** Lines 35-42: what precedes the loop. *)
Definition prologue (cfg : params) : list event :=
  LoggerInfo Training
    :: (if (bc_loss cfg =? 1)%Z then [InitDemoBuffer (demo_file cfg)] else []).

(** [train] on rank [rank]. *)
Definition train (rank : nat) (cfg : params) (world : nat -> epoch_data) : run :=
  let r := epochs rank cfg world 0 (n_epochs cfg) initial_best_success_rate in
  {| trace := prologue cfg ++ trace r;
     best_success_rate := best_success_rate r;
     result := result r |}.

(** The paths handed to [save_policy], in order. *)
Definition saves (tr : list event) : list string :=
  flat_map (fun ev => match ev with SavePolicy path => [path] | _ => [] end) tr.

(** The aggregated success rate of an epoch (line 89). *)
Definition success_rate (world : nat -> epoch_data) (epoch : nat) : Q :=
  mpi_average (current_success_rate (world epoch)).

(** The tracker at the start of epoch [epoch] of an unaborted run. *)
Fixpoint best_before (rank : nat) (cfg : params) (world : nat -> epoch_data)
    (epoch : nat) : Q :=
  match epoch with
  | O => initial_best_success_rate
  | S e => update_best rank cfg (success_rate world e) (best_before rank cfg world e)
  end.

(** The calls of epoch [epoch] of an unaborted run. *)
Definition epoch_trace (rank : nat) (cfg : params) (world : nat -> epoch_data)
    (epoch : nat) : list event :=
  emitted (epoch_step rank cfg (world epoch) epoch (best_before rank cfg world epoch)).

(** The part of an epoch that does not depend on the rank: rollouts,
    optimisation, evaluation and the recording of the metrics. *)
Definition common (cfg : params) (d : epoch_data) (epoch : nat) : list event :=
  collect cfg ++ test cfg ++ record d epoch.

(** The calls of the checkpoint policy (lines 91-99). *)
Definition checkpointing (ev : event) : bool :=
  match ev with
  | SavePolicy _ | LoggerInfo (NewBest _ _) | LoggerInfo (SavingPeriodic _) => true
  | _ => false
  end.

(** The calls that the program makes under [if rank == 0]. *)
Definition coordinator_only (ev : event) : bool :=
  match ev with
  | DumpTabular => true
  | _ => checkpointing ev
  end.

(** Calls that write a checkpoint or produce log output. *)
Definition side_effecting_io (ev : event) : bool :=
  match ev with
  | SavePolicy _ | LoggerInfo _ | DumpTabular => true
  | _ => false
  end.

(** The other calls: rollouts, optimisation steps and the recording of the
    aggregated metrics. *)
Definition numeric (ev : event) : bool := negb (side_effecting_io ev).

(** The number of epochs a run has entered when it ends. *)
Definition epochs_entered (r : outcome) (n_epochs : nat) : nat :=
  match r with
  | Returned => n_epochs
  | AssertionError epoch => S epoch
  end.

(** How often [path] is written in a trace. *)
Definition count_saves (path : string) (tr : list event) : nat :=
  length (filter (String.eqb path) (saves tr)).

(** The maximum of a non-empty sequence [x, xs]. *)
Definition maximum (x : Q) (xs : list Q) : Q := fold_left Qmax xs x.

(** The scenario of the end-to-end test: one worker, a checkpoint directory,
    two epochs of two cycles, no periodic saves, and the success rates 0.2
    and 0.5. *)
Definition scenario_params : params :=
  {| n_epochs := 2; n_test_rollouts := 1; n_cycles := 2; n_batches := 1;
     policy_save_interval := 0; save_path := Some "ckpt";
     demo_file := None; bc_loss := 0 |}.

Definition scenario_world (epoch : nat) : epoch_data :=
  {| test_logs := []; train_logs := []; policy_logs := [];
     current_success_rate :=
       [Scalar (match epoch with O => 2 # 10 | _ => 5 # 10 end)];
     local_uniform := fun rank => Z.of_nat rank # 4 |}.

(** The second scenario: the success rates 0.6 and 0.3. *)
Definition decreasing_world (epoch : nat) : epoch_data :=
  {| test_logs := []; train_logs := []; policy_logs := [];
     current_success_rate :=
       [Scalar (match epoch with O => 6 # 10 | _ => 3 # 10 end)];
     local_uniform := fun rank => Z.of_nat rank # 4 |}.

(** The same run without a checkpoint directory, and with periodic saves
    asked for at every epoch. *)
Definition unconfigured_params : params :=
  {| n_epochs := 2; n_test_rollouts := 1; n_cycles := 2; n_batches := 1;
     policy_save_interval := 1; save_path := None;
     demo_file := None; bc_loss := 0 |}.

(** Nine epochs with a periodic save every third epoch. *)
Definition periodic_params : params :=
  {| n_epochs := 9; n_test_rollouts := 1; n_cycles := 2; n_batches := 1;
     policy_save_interval := 3; save_path := Some "ckpt";
     demo_file := None; bc_loss := 0 |}.

(** The scenario with the behaviour-cloning loss switched on. *)
Definition demo_params : params :=
  {| n_epochs := 2; n_test_rollouts := 1; n_cycles := 2; n_batches := 1;
     policy_save_interval := 0; save_path := Some "ckpt";
     demo_file := Some "demo.npz"; bc_loss := 1 |}.

(** Two workers with a forced collision: in epoch 1 every rank draws 3/8. *)
Definition collision_world (epoch : nat) : epoch_data :=
  {| test_logs := []; train_logs := []; policy_logs := [];
     current_success_rate := [Scalar (1 # 2); Scalar (1 # 2)];
     local_uniform :=
       fun rank => if (epoch =? 1)%nat then 3 # 8 else Z.of_nat rank # 8 |}.

End Training.

(** ** Counting the calls of a run *)

Module Calls.

Import Training.

(** How many calls of a trace satisfy [p]. *)
Definition calls (p : event -> bool) (tr : list event) : nat :=
  length (filter p tr).




Definition is_generate_rollouts (w : worker) (ev : event) : bool :=
  match ev, w with
  | GenerateRollouts rollout_worker, rollout_worker => true
  | GenerateRollouts evaluator, evaluator => true
  | _, _ => false
  end.

Definition is_init_demo_buffer (ev : event) : bool :=
  match ev with InitDemoBuffer _ => true | _ => false end.

Definition is_dump_tabular (ev : event) : bool :=
  match ev with DumpTabular => true | _ => false end.

(** The paths of a list that are neither the best nor the latest policy of
    [dir]. *)
Definition other_saves (dir : string) (paths : list string) : list string :=
  filter (fun path => negb (String.eqb path (best_policy_path dir))
                      && negb (String.eqb path (latest_policy_path dir))) paths.

(** The epochs below [n] at which the guard of line 96 lets through a
    periodic save with interval [K]. *)
Definition periodic_epochs (K : Z) (n : nat) : list nat :=
  filter (fun e => (0 <? K)%Z && (Z.of_nat e mod K =? 0)%Z) (seq 0 n).

End Calls.

(** ** The launcher *)

Module Launcher.

Import Training.
Local Open Scope string_scope.

(** The values that occur in the parameter dictionaries. *)
Inductive pyval : Type :=
| PNone
| PBool (b : bool)
| PInt (n : Z)
| PFloat (x : Q)
| PStr (s : string).

(** A Python [dict] with string keys: the items in insertion order, every
    key at most once. *)
Definition dict : Type := list (string * pyval).

Definition keys (d : dict) : list string := map fst d.

(** [d[k]]; [None] stands for [KeyError]. *)
Fixpoint getitem (d : dict) (k : string) : option pyval :=
  match d with
  | [] => None
  | (k', v) :: rest => if String.eqb k k' then Some v else getitem rest k
  end.

(** [k in d]. *)
Definition contains (d : dict) (k : string) : bool :=
  match getitem d k with Some _ => true | None => false end.

(** [d[k] = v]: an existing key keeps its place, a new key goes last. *)
Fixpoint setitem (d : dict) (k : string) (v : pyval) : dict :=
  match d with
  | [] => [(k, v)]
  | (k', v') :: rest =>
      if String.eqb k k' then (k, v) :: rest else (k', v') :: setitem rest k v
  end.

(** [d.update(other)]: the items of [other] are assigned in their order. *)
Definition update (d other : dict) : dict :=
  fold_left (fun acc kv => setitem acc (fst kv) (snd kv)) other d.

(** Lines 129 and 139-149 of [learn]: the parameters that are written to
    [params.json].  [DEFAULT_PARAMS] and [DEFAULT_ENV_PARAMS] belong to
    [baselines.her.experiment.config] and are arguments here; [env_name] is
    [env.spec.id].  [override_params or {}] turns [None] into the empty
    dictionary. *)
Definition merge_params (DEFAULT_PARAMS : dict)
    (DEFAULT_ENV_PARAMS : list (string * dict)) (env_name replay_strategy : string)
    (override_params : option dict) : dict :=
  let override_params :=
    match override_params with
    | None => []
    | Some d => d
    end in
  let params := DEFAULT_PARAMS in
  let params := setitem params "env_name" (PStr env_name) in
  let params := setitem params "replay_strategy" (PStr replay_strategy) in
  let params :=
    match find (fun entry => String.eqb env_name (fst entry)) DEFAULT_ENV_PARAMS with
    | Some entry => update params (snd entry)
    | None => params
    end in
  update params override_params.

(** Lines 155-159, on the dictionary [config.prepare_params] has returned:
    [kwargs] are the extra keyword arguments of [learn]. *)
Definition finish_params (prepared : dict) (num_envs : Z)
    (demo_file : option string) (kwargs : dict) : dict :=
  let params := setitem prepared "rollout_batch_size" (PInt num_envs) in
  let params :=
    match demo_file with
    | Some _ => setitem params "bc_loss" (PInt 1)
    | None => params
    end in
  update params kwargs.

(** Lines 181-187 and 197-199: the keyword arguments of the training
    [RolloutWorker]. *)
Definition copied_names : list string :=
  ["T"; "rollout_batch_size"; "gamma"; "noise_eps"; "random_eps"].

(** The loop of lines 197-199 for one of the two dictionaries. *)
Fixpoint copy_names (params : dict) (names : list string) (target : dict) : option dict :=
  match names with
  | [] => Some target
  | name :: rest =>
      match getitem params name with
      | None => None
      | Some v => copy_names params rest (setitem target name v)
      end
  end.

Definition rollout_params (params : dict) : option dict :=
  match getitem params "T" with
  | None => None
  | Some T =>
      copy_names params copied_names
        [("exploit", PBool false); ("use_target_net", PBool false);
         ("use_demo_states", PBool true); ("compute_Q", PBool false); ("T", T)]
  end.

(** Lines 189-199: the keyword arguments of the evaluator. *)
Definition eval_params (params : dict) : option dict :=
  match getitem params "test_with_polyak" with
  | None => None
  | Some polyak =>
      match getitem params "T" with
      | None => None
      | Some T =>
          copy_names params copied_names
            [("exploit", PBool true); ("use_target_net", polyak);
             ("use_demo_states", PBool false); ("compute_Q", PBool true); ("T", T)]
      end
  end.

(** Python's [a // b] on integers; [None] stands for [ZeroDivisionError]. *)
Definition floordiv (a b : Z) : option Z :=
  if (b =? 0)%Z then None else Some (a / b)%Z.

(** Line 211:
    [total_timesteps // n_cycles // rollout_worker.T // rollout_worker.rollout_batch_size]. *)
Definition learn_n_epochs (total_timesteps n_cycles T rollout_batch_size : Z) : option Z :=
  match floordiv total_timesteps n_cycles with
  | None => None
  | Some q =>
      match floordiv q T with
      | None => None
      | Some q' => floordiv q' rollout_batch_size
      end
  end.

(** What [learn] reads from the prepared parameters, the policy and the
    rollout worker before it calls [train]. *)
Record prepared : Type := {
  params_n_cycles : Z;
  params_n_test_rollouts : Z;
  params_n_batches : Z;
  worker_T : Z;
  worker_rollout_batch_size : Z;
  policy_bc_loss : Z
}.

(** Lines 210-217: the call of [train].  [range] of a negative number is
    empty, hence [Z.to_nat]. *)
Definition learn_train (rank : nat) (total_timesteps policy_save_interval : Z)
    (demo_file save_path : option string) (p : prepared)
    (world : nat -> epoch_data) : option run :=
  match learn_n_epochs total_timesteps (params_n_cycles p) (worker_T p)
          (worker_rollout_batch_size p) with
  | None => None
  | Some n =>
      Some (train rank
              {| n_epochs := Z.to_nat n;
                 n_test_rollouts := Z.to_nat (params_n_test_rollouts p);
                 n_cycles := Z.to_nat (params_n_cycles p);
                 n_batches := Z.to_nat (params_n_batches p);
                 Training.policy_save_interval := policy_save_interval;
                 Training.save_path := save_path;
                 Training.demo_file := demo_file;
                 bc_loss := policy_bc_loss p |}
              world)
  end.

(** Fixtures: a default dictionary, the parameters of one environment, and
    an override. *)
Definition sample_defaults : dict :=
  [("n_cycles", PInt 50); ("T", PInt 50); ("gamma", PFloat (98 # 100));
   ("noise_eps", PFloat (2 # 10)); ("random_eps", PFloat (3 # 10));
   ("test_with_polyak", PBool false); ("rollout_batch_size", PInt 2)].

Definition sample_env_params : list (string * dict) :=
  [("FetchReach-v1", [("n_cycles", PInt 10)])].

Definition sample_override : dict := [("n_cycles", PInt 20); ("env_name", PStr "x")].

Definition sample_prepared : prepared :=
  {| params_n_cycles := 50; params_n_test_rollouts := 10; params_n_batches := 40;
     worker_T := 50; worker_rollout_batch_size := 2; policy_bc_loss := 0 |}.

End Launcher.

(** ** Formatting the periodic path *)

Module Formatting.

Import Training.
Local Open Scope string_scope.

(** No brace in the string. *)
Fixpoint brace_free (s : string) : bool :=
  match s with
  | EmptyString => true
  | String c rest =>
      negb (Ascii.eqb c "{") && negb (Ascii.eqb c "}") && brace_free rest
  end.

(** The ways [template.format(epoch)] can end: with a string, or with an
    exception ([ValueError] for a single brace, [IndexError] for a second
    placeholder).  A replacement field that is not the bare placeholder
    (an index, a name, a conversion or a format specification between the
    braces) is not covered. *)
Inductive formatted : Type :=
| Formatted (s : string)
| FormatError
| NotCovered.

Definition emit (c : ascii) (r : formatted) : formatted :=
  match r with
  | Formatted s => Formatted (String c s)
  | other => other
  end.

Definition emit_string (p : string) (r : formatted) : formatted :=
  match r with
  | Formatted s => Formatted (p ++ s)
  | other => other
  end.

(** [str.format] with the one positional argument [arg], read left to
    right: doubled braces stand for single ones, the first [{}] is replaced
    by the argument, a second one or a single brace raises.  [used] tells
    whether the argument has been consumed. *)
Fixpoint format_with (arg : string) (used : bool) (template : string) : formatted :=
  match template with
  | EmptyString => Formatted EmptyString
  | String c rest =>
      if Ascii.eqb c "{" then
        match rest with
        | EmptyString => FormatError
        | String c' rest' =>
            if Ascii.eqb c' "{" then emit "{" (format_with arg used rest')
            else if Ascii.eqb c' "}" then
              if used then FormatError
              else emit_string arg (format_with arg true rest')
            else NotCovered
        end
      else if Ascii.eqb c "}" then
        match rest with
        | EmptyString => FormatError
        | String c' rest' =>
            if Ascii.eqb c' "}" then emit "}" (format_with arg used rest')
            else FormatError
        end
      else emit c (format_with arg used rest)
  end.

(** [template.format(epoch)]. *)
Definition format (template : string) (epoch : nat) : formatted :=
  format_with (str epoch) false template.

(** Line 33: [os.path.join(save_path, 'policy_{}.pkl')]. *)
Definition periodic_template (dir : string) : string := join dir "policy_{}.pkl".

(** Lines 96-99 with the formatting of line 97 spelled out: no save when
    the guard fails; otherwise the path is formatted first, and only if
    that succeeds is [save_policy] called with it. *)
Inductive periodic_request : Type :=
| NoSave
| Save (path : string)
| Raises
| Unknown.

Definition request_periodic (rank : nat) (cfg : params) (epoch : nat) : periodic_request :=
  if is_periodic rank cfg epoch then
    match format (periodic_template (save_dir (save_path cfg))) epoch with
    | Formatted path => Save path
    | FormatError => Raises
    | NotCovered => Unknown
    end
  else NoSave.

(** A checkpoint directory with a placeholder in its name, and a periodic
    save at every epoch. *)
Definition braces_params : params :=
  {| n_epochs := 2; n_test_rollouts := 1; n_cycles := 2; n_batches := 1;
     policy_save_interval := 1; save_path := Some "c{}";
     demo_file := None; bc_loss := 0 |}.

End Formatting.

(** * Properties *)

Import Aggregator Seeding Training Formatting.

(** ** The aggregation *)

Section AggregatorFacts.

Local Open Scope Q_scope.

Lemma truthy_false (x : Q) : truthy x = false <-> x == 0.
Proof.
  unfold truthy. rewrite negb_false_iff. apply Qeq_bool_iff.
Qed.

Lemma any_false (xs : list Q) : any xs = false <-> Forall (fun x => x == 0) xs.
Proof.
  unfold any. induction xs as [|x xs IH]; simpl.
  - split; [constructor | reflexivity].
  - rewrite orb_false_iff, IH, truthy_false. split.
    + intros [Hx Hxs]. now constructor.
    + intros H. inversion H; subst. now split.
Qed.

Lemma sumQ_zero (xs : list Q) : Forall (fun x => x == 0) xs -> sumQ xs == 0.
Proof.
  induction 1 as [|x xs Hx _ IH]; simpl.
  - reflexivity.
  - rewrite Hx, IH. reflexivity.
Qed.

Lemma sumQ_app (xs ys : list Q) : sumQ (xs ++ ys) == sumQ xs + sumQ ys.
Proof.
  induction xs as [|x xs IH]; simpl.
  - now rewrite Qplus_0_l.
  - rewrite IH. apply Qplus_assoc.
Qed.

(** An array with a truthy entry is handed over as it is; any other is
    replaced by the one-element array [[0]]. *)
Lemma local_array_truthy (xs : list Q) :
  any xs = true -> local_array (Values xs) = xs.
Proof. unfold local_array. simpl. now intros ->. Qed.

Lemma local_array_falsy (xs : list Q) :
  any xs = false -> local_array (Values xs) = [0].
Proof. unfold local_array. simpl. now intros ->. Qed.

Lemma local_array_nonempty (v : value) : local_array v <> [].
Proof.
  unfold local_array. destruct (any (as_list v)) eqn:E; simpl.
  - intros H. rewrite H in E. discriminate.
  - discriminate.
Qed.

Lemma allreduce_sum_app (xs ys : list (Q * Z)) :
  fst (allreduce_sum (xs ++ ys)) == fst (allreduce_sum xs) + fst (allreduce_sum ys)
  /\ snd (allreduce_sum (xs ++ ys)) = (snd (allreduce_sum xs) + snd (allreduce_sum ys))%Z.
Proof.
  induction xs as [|x xs [IHs IHc]]; simpl.
  - split; [now rewrite Qplus_0_l | reflexivity].
  - split; [rewrite IHs; apply Qplus_assoc | rewrite IHc; apply Z.add_assoc].
Qed.

(** The all-reduce of the ranks' contributions is the sum and the length of
    the concatenation of their arrays. *)
Lemma allreduce_sum_concat (comm : list (list Q)) :
  fst (allreduce_sum (map localsum comm)) == sumQ (concat comm)
  /\ snd (allreduce_sum (map localsum comm)) = Z.of_nat (length (concat comm)).
Proof.
  induction comm as [|x comm [IHs IHc]]; simpl.
  - split; reflexivity.
  - split.
    + rewrite IHs, sumQ_app. reflexivity.
    + rewrite IHc, length_app. lia.
Qed.

Lemma mpi_moments_mean_concat (comm : list (list Q)) :
  mpi_moments_mean comm == mean (concat comm).
Proof.
  unfold mpi_moments_mean, mpi_mean, mean. simpl.
  destruct (allreduce_sum_concat comm) as [Hs Hc].
  rewrite Hs, Hc. reflexivity.
Qed.

Lemma mpi_moments_count_app (xs ys : list (list Q)) :
  mpi_moments_count (xs ++ ys) = (mpi_moments_count xs + mpi_moments_count ys)%Z.
Proof.
  unfold mpi_moments_count, mpi_mean. simpl. rewrite map_app.
  apply allreduce_sum_app.
Qed.

(** Under the side condition of the amended claim the substitution of
    [[0]] changes neither the sum nor the length of a rank's array. *)
Lemma local_array_preserves (v : value) :
  any (as_list v) = true \/ length (as_list v) = 1%nat ->
  sumQ (local_array v) == sumQ (as_list v)
  /\ length (local_array v) = length (as_list v).
Proof.
  intros H. unfold local_array. destruct (any (as_list v)) eqn:E; simpl.
  - split; reflexivity.
  - destruct H as [H | H]; [discriminate |].
    split; [| now rewrite H].
    rewrite (sumQ_zero (as_list v)); [reflexivity | now apply any_false].
Qed.

Lemma concat_local_arrays (comm : list value) :
  Forall (fun v => any (as_list v) = true \/ length (as_list v) = 1%nat) comm ->
  sumQ (concat (map local_array comm)) == sumQ (concat (map as_list comm))
  /\ length (concat (map local_array comm)) = length (concat (map as_list comm)).
Proof.
  induction 1 as [|v comm Hv _ [IHs IHc]]; simpl.
  - split; reflexivity.
  - destruct (local_array_preserves v Hv) as [Hs Hc].
    split.
    + rewrite !sumQ_app, Hs, IHs. reflexivity.
    + rewrite !length_app, Hc, IHc. reflexivity.
Qed.

(** What the call returns in general: the mean of the arrays handed on. *)
Lemma mpi_average_local_arrays (comm : list value) :
  mpi_average comm == mean (concat (map local_array comm)).
Proof. apply mpi_moments_mean_concat. Qed.

Lemma mpi_average_values (comm : list value) :
  Forall (fun v => any (as_list v) = true \/ length (as_list v) = 1%nat) comm ->
  mpi_average comm == mean (concat (map as_list comm)).
Proof.
  intros Hok. rewrite mpi_average_local_arrays. unfold mean.
  destruct (concat_local_arrays comm Hok) as [Hs Hc].
  rewrite Hs, Hc. reflexivity.
Qed.

(** The way [train] uses the aggregation: every rank passes one scalar, and
    the result is the mean of the scalars. *)
Lemma mpi_average_scalars (xs : list Q) :
  mpi_average (map Scalar xs) == mean xs.
Proof.
  rewrite mpi_average_values.
  - rewrite map_map. simpl.
    replace (concat (map (fun x => [x]) xs)) with xs; [reflexivity |].
    induction xs as [|x xs IH]; simpl; [reflexivity | now rewrite <- IH].
  - apply Forall_forall. intros v Hv. apply in_map_iff in Hv as (x & <- & _).
    now right.
Qed.

(** C1, as stated: for every worker count W >= 1 and all equal-length lists,
    [mpi_average] is the arithmetic mean of the concatenation.  This fails:
    with two workers holding [0, 0] and [1, 1] the first list has no truthy
    entry and enters the reduction as the single value 0, so the result is
    2/3 and not 2/4. *)
Lemma mpi_average_not_always_mean :
  ~ (forall (lists : list (list Q)) (n : nat),
        lists <> [] ->
        Forall (fun l => length l = n) lists ->
        mpi_average (map Values lists) == mean (concat lists)).
Proof.
  intros H.
  specialize (H [[0; 0]; [1; 1]] 2%nat).
  assert (E : mpi_average (map Values [[0; 0]; [1; 1]]) == mean (concat [[0; 0]; [1; 1]])).
  { apply H; [discriminate | repeat constructor]. }
  vm_compute in E. discriminate.
Qed.

(** C1, amended: for every worker count W >= 1 and all lists of one length
    n, each of which holds a non-zero value or has length 1, [mpi_average]
    is the arithmetic mean of the concatenation of the lists. *)
Theorem mpi_average_mean (lists : list (list Q)) (n : nat) :
  lists <> [] ->
  Forall (fun l => length l = n) lists ->
  Forall (fun l => any l = true \/ length l = 1%nat) lists ->
  mpi_average (map Values lists) == mean (concat lists).
Proof.
  intros _ _ Hok. rewrite mpi_average_values.
  - rewrite map_map. simpl. now rewrite map_id.
  - apply Forall_forall. intros v Hv. apply in_map_iff in Hv as (l & <- & Hl).
    rewrite Forall_forall in Hok. now apply Hok.
Qed.

Lemma mpi_average_mean_witness :
  mpi_average (map Values [[1; 2]; [0; 3]]) == mean (concat [[1; 2]; [0; 3]]).
Proof.
  apply (mpi_average_mean [[1; 2]; [0; 3]] 2%nat).
  - discriminate.
  - repeat constructor.
  - repeat constructor; left; reflexivity.
Defined.

(** C6: an empty local list is handed to the reduction as the one-element
    array [[0]], exactly as the list [[0]] and the scalar 0 are, so whatever
    the other ranks hold and whatever is computed from the arrays, the call
    returns what it returns with [[0]] in place of the empty list. *)
Theorem mpi_average_empty_as_zero (before after : list value) :
  local_array (Values []) = [0]
  /\ local_array (Values [0]) = [0]
  /\ local_array (Scalar 0) = [0]
  /\ (forall (A : Type) (moments : list (list Q) -> A),
         moments (map local_array (before ++ Values [] :: after))
         = moments (map local_array (before ++ Values [0] :: after)))
  /\ mpi_average (before ++ Values [] :: after)
     = mpi_average (before ++ Values [0] :: after).
Proof.
  split; [reflexivity |]. split; [reflexivity |]. split; [reflexivity |]. split.
  - intros A moments. rewrite !map_app. reflexivity.
  - unfold mpi_average. rewrite !map_app. reflexivity.
Qed.

Lemma mpi_average_count_at (v : value) (before after : list value) :
  mpi_average_count (before ++ v :: after)
  = (mpi_average_count before + Z.of_nat (length (local_array v))
     + mpi_average_count after)%Z.
Proof.
  unfold mpi_average_count. rewrite map_app. simpl map.
  rewrite mpi_moments_count_app.
  change (local_array v :: map local_array after)
    with ([local_array v] ++ map local_array after).
  rewrite mpi_moments_count_app.
  unfold mpi_moments_count at 2, mpi_mean. simpl. lia.
Qed.

(** C7: a list all of whose entries are zero -- empty or not -- is replaced
    by [[0]]: it then counts for one value in the global mean, whatever its
    length, and the call returns what it returns for the list [[0]]; a list
    with a non-zero entry is passed on unchanged and counts for as many
    values as it has. *)
Theorem mpi_average_all_zero_collapses (xs : list Q) (before after : list value) :
  Forall (fun x => x == 0) xs ->
  any xs = false
  /\ local_array (Values xs) = [0]
  /\ mpi_average (before ++ Values xs :: after)
     = mpi_average (before ++ Values [0] :: after)
  /\ mpi_average_count (before ++ Values xs :: after)
     = (mpi_average_count before + 1 + mpi_average_count after)%Z
  /\ (forall ys : list Q,
        any ys = true ->
        local_array (Values ys) = ys
        /\ mpi_average_count (before ++ Values ys :: after)
           = (mpi_average_count before + Z.of_nat (length ys)
              + mpi_average_count after)%Z).
Proof.
  intros Hz. apply any_false in Hz.
  pose proof (local_array_falsy xs Hz) as E.
  split; [exact Hz |]. split; [exact E |]. split; [| split].
  - unfold mpi_average. rewrite !map_app. simpl. rewrite E. reflexivity.
  - rewrite mpi_average_count_at, E. reflexivity.
  - intros ys Hy. pose proof (local_array_truthy ys Hy) as Ey.
    split; [exact Ey |]. rewrite mpi_average_count_at, Ey. reflexivity.
Qed.

Lemma mpi_average_all_zero_collapses_witness :
  local_array (Values [0; 0; 0]) = [0]
  /\ mpi_average ([Values [1; 2; 3]] ++ Values [0; 0; 0] :: [])
     = mpi_average ([Values [1; 2; 3]] ++ Values [0] :: [])
  /\ mpi_average_count ([Values [1; 2; 3]] ++ Values [0; 0; 0] :: [])
     = Z.add (Z.add (mpi_average_count [Values [1; 2; 3]]) 1%Z) (mpi_average_count []).
Proof.
  destruct (mpi_average_all_zero_collapses [0; 0; 0] [Values [1; 2; 3]] [])
    as (_ & Ha & Hm & Hc & _).
  - repeat constructor.
  - split; [exact Ha |]. split; [exact Hm | exact Hc].
Defined.

End AggregatorFacts.

(** ** The seeds *)

Section SeedingFacts.

Local Open Scope Z_scope.

Lemma rank_seed_inj (s : Z) (r1 r2 : nat) :
  rank_seed (Some s) r1 = rank_seed (Some s) r2 -> r1 = r2.
Proof.
  unfold rank_seed. intros H.
  assert (E : s + 1000000 * Z.of_nat r1 = s + 1000000 * Z.of_nat r2).
  { exact (f_equal (fun o => match o with Some z => z | None => 0 end) H). }
  lia.
Qed.

(** C8: with a base seed [s], rank [r] gets the seed [s + 1000000 * r], so
    two different ranks never get the same seed (in particular not among the
    ranks [0 .. W-1] of any [W <= 1000]); without a base seed no seed is
    derived. *)
Theorem rank_seed_decorrelated :
  (forall (s : Z) (r : nat), rank_seed (Some s) r = Some (s + 1000000 * Z.of_nat r))
  /\ (forall (s : Z) (W r1 r2 : nat),
         (W <= 1000)%nat -> (r1 < W)%nat -> (r2 < W)%nat -> r1 <> r2 ->
         rank_seed (Some s) r1 <> rank_seed (Some s) r2)
  /\ (forall (s : Z) (r1 r2 : nat),
         rank_seed (Some s) r1 = rank_seed (Some s) r2 -> r1 = r2)
  /\ (forall r : nat, rank_seed None r = None).
Proof.
  split; [reflexivity |]. split; [| split; [| reflexivity]].
  - intros s W r1 r2 _ _ _ Hne H. apply rank_seed_inj in H. contradiction.
  - exact rank_seed_inj.
Qed.

Lemma rank_seed_decorrelated_witness :
  rank_seed (Some 7) 0 <> rank_seed (Some 7) 1.
Proof.
  apply (proj1 (proj2 rank_seed_decorrelated) 7 2%nat 0%nat 1%nat); lia.
Defined.

End SeedingFacts.

(** ** The training loop *)

Section TrainingFacts.

Local Open Scope Q_scope.

(** *** Paths *)

Lemma append_cancel_l (p a b : string) : (p ++ a = p ++ b)%string -> a = b.
Proof.
  induction p as [|c p IH]; simpl; intros H.
  - exact H.
  - injection H as H. now apply IH.
Qed.

Lemma join_inj (dir a b : string) : join dir a = join dir b -> a = b.
Proof.
  unfold join. destruct (String.eqb dir "" || endswith_sep dir); intros H.
  - now apply append_cancel_l in H.
  - apply append_cancel_l in H. simpl in H. now injection H.
Qed.

(** The decimal numeral of an epoch starts with a digit, so a periodic
    checkpoint never goes to the file of the best or of the latest policy. *)
Lemma str_head (epoch : nat) :
  exists (c : ascii) (rest : string),
    str epoch = String c rest /\ c <> "b"%char /\ c <> "l"%char.
Proof.
  unfold str. destruct (Nat.to_uint epoch); simpl;
    eexists; eexists; (split; [reflexivity | split; discriminate]).
Qed.

Lemma periodic_not_best (dir : string) (epoch : nat) :
  periodic_policy_path dir epoch <> best_policy_path dir.
Proof.
  unfold periodic_policy_path, best_policy_path. intros H.
  apply join_inj in H.
  destruct (str_head epoch) as (c & rest & E & Hb & _). rewrite E in H.
  simpl in H. injection H as H _. apply Hb. now inversion H.
Qed.

Lemma periodic_not_latest (dir : string) (epoch : nat) :
  periodic_policy_path dir epoch <> latest_policy_path dir.
Proof.
  unfold periodic_policy_path, latest_policy_path. intros H.
  apply join_inj in H.
  destruct (str_head epoch) as (c & rest & E & _ & Hl). rewrite E in H.
  simpl in H. injection H as H _. apply Hl. now inversion H.
Qed.

Lemma best_not_latest (dir : string) :
  best_policy_path dir <> latest_policy_path dir.
Proof.
  unfold best_policy_path, latest_policy_path. intros H.
  apply join_inj in H. discriminate.
Qed.

Lemma list_ascii_of_append (a b : string) :
  list_ascii_of_string (a ++ b)
  = (list_ascii_of_string a ++ list_ascii_of_string b)%list.
Proof. induction a as [|c a IH]; simpl; [reflexivity | now rewrite IH]. Qed.

Lemma append_cancel_r (a b p : string) : (a ++ p = b ++ p)%string -> a = b.
Proof.
  intros H. apply (f_equal list_ascii_of_string) in H.
  rewrite !list_ascii_of_append in H. apply app_inv_tail in H.
  apply (f_equal string_of_list_ascii) in H.
  now rewrite !string_of_list_ascii_of_string in H.
Qed.

Lemma to_uint_nonnil (n : nat) : Nat.to_uint n <> Decimal.Nil.
Proof.
  intros H. pose proof (Unsigned.of_to n) as E. rewrite H in E.
  simpl in E. subst n. discriminate H.
Qed.

(** Different epochs have different numerals ... *)
Lemma str_inj (e e' : nat) : str e = str e' -> e = e'.
Proof.
  unfold str. intros H. apply Unsigned.to_uint_inj.
  assert (E : Some (Nat.to_uint e) = Some (Nat.to_uint e')).
  { rewrite <- (NilZero.usu _ (to_uint_nonnil e)), <- (NilZero.usu _ (to_uint_nonnil e')).
    now rewrite H. }
  now injection E.
Qed.

(** ... and so different periodic checkpoints. *)
Lemma periodic_inj (dir : string) (e e' : nat) :
  periodic_policy_path dir e = periodic_policy_path dir e' -> e = e'.
Proof.
  unfold periodic_policy_path. intros H. apply join_inj in H.
  apply (append_cancel_l "policy_") in H. apply append_cancel_r in H.
  now apply str_inj.
Qed.

(** *** Formatting the joined path *)

Lemma format_with_prefix (arg : string) (p t : string) :
  brace_free p = true ->
  forall used, format_with arg used (p ++ t) = emit_string p (format_with arg used t).
Proof.
  induction p as [|c p IH]; intros H used.
  - simpl. now destruct (format_with arg used t).
  - simpl in H. apply andb_prop in H as [H Hp]. apply andb_prop in H as [Ho Hc].
    apply negb_true_iff in Ho, Hc.
    change (String c p ++ t)%string with (String c (p ++ t)%string).
    cbn [format_with]. rewrite Ho, Hc, (IH Hp).
    now destruct (format_with arg used t).
Qed.

(** For a directory without braces, formatting the joined path of line 33
    with the epoch gives [periodic_policy_path]. *)
Lemma format_periodic_path (dir : string) (epoch : nat) :
  brace_free dir = true ->
  format (periodic_template dir) epoch = Formatted (periodic_policy_path dir epoch).
Proof.
  intros H. unfold format, periodic_template, periodic_policy_path, join.
  destruct (String.eqb dir "" || endswith_sep dir).
  - rewrite (format_with_prefix _ dir _ H). reflexivity.
  - rewrite (format_with_prefix _ dir _ H). reflexivity.
Qed.

Lemma request_periodic_brace_free (rank : nat) (cfg : params) (epoch : nat) :
  brace_free (save_dir (save_path cfg)) = true ->
  request_periodic rank cfg epoch
  = if is_periodic rank cfg epoch
    then Save (periodic_policy_path (save_dir (save_path cfg)) epoch)
    else NoSave.
Proof.
  intros H. unfold request_periodic. now rewrite (format_periodic_path _ _ H).
Qed.

(** *** The calls of one epoch *)

Lemma saves_app (a b : list event) : saves (a ++ b) = saves a ++ saves b.
Proof. apply flat_map_app. Qed.

Lemma forallb_repeat {A : Type} (p : A -> bool) (x : A) (n : nat) :
  p x = true -> forallb p (repeat x n) = true.
Proof. intros H. induction n; simpl; [reflexivity | now rewrite H]. Qed.

Lemma forallb_concat_repeat {A : Type} (p : A -> bool) (xs : list A) (n : nat) :
  forallb p xs = true -> forallb p (concat (repeat xs n)) = true.
Proof.
  intros H. induction n; simpl; [reflexivity |].
  now rewrite forallb_app, H.
Qed.

Lemma emitted_split (rank : nat) (cfg : params) (d : epoch_data) (epoch : nat) (best : Q) :
  emitted (epoch_step rank cfg d epoch best)
  = common cfg d epoch
      ++ dump rank
      ++ save_best rank cfg (mpi_average (current_success_rate d)) best
      ++ save_periodic rank cfg epoch
      ++ [LoggerInfo (BestSoFar (tracker (epoch_step rank cfg d epoch best)))].
Proof.
  unfold common, epoch_step. cbn [emitted tracker].
  now rewrite <- !app_assoc.
Qed.

Lemma cycle_forallb (p : event -> bool) (cfg : params) :
  p (GenerateRollouts rollout_worker) = true -> p StoreEpisode = true ->
  p PolicyTrain = true -> p UpdateTargetNet = true ->
  forallb p (cycle cfg) = true.
Proof.
  intros H1 H2 H3 H4. unfold cycle. simpl. rewrite H1, H2. simpl.
  rewrite forallb_app, (forallb_repeat p _ _ H3). simpl. now rewrite H4.
Qed.

Lemma record_logs_forallb (p : event -> bool) (logs : list (string * list Aggregator.value)) :
  (forall key val, p (RecordTabular key val) = true) ->
  forallb p (record_logs logs) = true.
Proof.
  intros H. unfold record_logs. induction logs as [|kv logs IH]; simpl.
  - reflexivity.
  - now rewrite H.
Qed.

(** A property of the rank-independent calls holds throughout [common]. *)
Lemma common_forallb (p : event -> bool) (cfg : params) (d : epoch_data) (epoch : nat) :
  p (GenerateRollouts rollout_worker) = true -> p StoreEpisode = true ->
  p PolicyTrain = true -> p UpdateTargetNet = true ->
  p (ClearHistory rollout_worker) = true -> p (ClearHistory evaluator) = true ->
  p (GenerateRollouts evaluator) = true -> p (LoggerInfo Testing) = true ->
  (forall key val, p (RecordTabular key val) = true) ->
  forallb p (common cfg d epoch) = true.
Proof.
  intros H1 H2 H3 H4 H5 H6 H7 H8 H9. unfold common, collect, test, record.
  rewrite !forallb_app. simpl. rewrite H5, H6, H8, H9. simpl.
  rewrite (forallb_concat_repeat p _ _ (cycle_forallb p cfg H1 H2 H3 H4)).
  rewrite (forallb_repeat p _ _ H7).
  rewrite !forallb_app, !(record_logs_forallb p _ H9). reflexivity.
Qed.

Lemma saves_none (tr : list event) :
  forallb (fun ev => match ev with SavePolicy _ => false | _ => true end) tr = true ->
  saves tr = [].
Proof.
  induction tr as [|ev tr IH]; simpl; [reflexivity |].
  intros H. apply andb_prop in H as [Hev Htr].
  destruct ev; try discriminate; simpl; now apply IH.
Qed.

Lemma saves_common (cfg : params) (d : epoch_data) (epoch : nat) :
  saves (common cfg d epoch) = [].
Proof. apply saves_none. now apply common_forallb. Qed.

Lemma saves_prologue (cfg : params) : saves (prologue cfg) = [].
Proof. unfold prologue. simpl. now destruct (bc_loss cfg =? 1)%Z. Qed.

Lemma saves_flat_map {A : Type} (f : A -> list event) (xs : list A) :
  saves (flat_map f xs) = flat_map (fun x => saves (f x)) xs.
Proof.
  induction xs as [|x xs IH]; simpl; [reflexivity |].
  now rewrite saves_app, IH.
Qed.

Lemma saves_dump (rank : nat) : saves (dump rank) = [].
Proof. unfold dump. now destruct (rank =? 0)%nat. Qed.

Lemma saves_save_best (rank : nat) (cfg : params) (s best : Q) :
  saves (save_best rank cfg s best)
  = if is_new_best rank cfg s best
    then [best_policy_path (save_dir (save_path cfg));
          latest_policy_path (save_dir (save_path cfg))]
    else [].
Proof. unfold save_best. now destruct (is_new_best rank cfg s best). Qed.

Lemma saves_save_periodic (rank : nat) (cfg : params) (epoch : nat) :
  saves (save_periodic rank cfg epoch)
  = if is_periodic rank cfg epoch
    then [periodic_policy_path (save_dir (save_path cfg)) epoch]
    else [].
Proof. unfold save_periodic. now destruct (is_periodic rank cfg epoch). Qed.

(** The checkpoints written in one epoch: the best and the latest policy
    when the best-update fires, then the periodic one when it is due. *)
Lemma saves_epoch_step (rank : nat) (cfg : params) (d : epoch_data) (epoch : nat) (best : Q) :
  saves (emitted (epoch_step rank cfg d epoch best))
  = (if is_new_best rank cfg (mpi_average (current_success_rate d)) best
     then [best_policy_path (save_dir (save_path cfg));
           latest_policy_path (save_dir (save_path cfg))]
     else [])
    ++ (if is_periodic rank cfg epoch
        then [periodic_policy_path (save_dir (save_path cfg)) epoch]
        else []).
Proof.
  rewrite emitted_split, !saves_app, saves_common, saves_dump,
    saves_save_best, saves_save_periodic.
  simpl. now rewrite app_nil_r.
Qed.

(** *** The assertion *)

Lemma decorrelated_rank0 (d : epoch_data) : decorrelated 0 d = true.
Proof. reflexivity. Qed.

Lemma decorrelated_false (rank : nat) (d : epoch_data) :
  decorrelated rank d = false
  <-> rank <> 0%nat /\ local_uniform d rank == local_uniform d 0%nat.
Proof.
  unfold decorrelated, Bcast. destruct (Nat.eqb_spec rank 0) as [-> | Hr]; simpl.
  - split; [discriminate | now intros [H _]].
  - rewrite negb_false_iff, Qeq_bool_iff. tauto.
Qed.

Lemma decorrelated_true (rank : nat) (d : epoch_data) :
  decorrelated rank d = true
  <-> rank = 0%nat \/ ~ local_uniform d rank == local_uniform d 0%nat.
Proof.
  destruct (decorrelated rank d) eqn:E.
  - split; [| reflexivity]. intros _.
    destruct (Nat.eq_dec rank 0) as [Hr | Hr]; [now left | right].
    intros H. assert (F : decorrelated rank d = false) by now apply decorrelated_false.
    congruence.
  - apply decorrelated_false in E as [Hr Hq].
    split; [discriminate | intros [H | H]; contradiction].
Qed.

(** *** The loop *)

Lemma epochs_S (rank : nat) (cfg : params) (world : nat -> epoch_data)
    (epoch todo : nat) (best : Q) :
  epochs rank cfg world epoch (S todo) best
  = if decorrelated rank (world epoch) then
      {| trace := emitted (epoch_step rank cfg (world epoch) epoch best)
                    ++ trace (epochs rank cfg world (S epoch) todo
                                (update_best rank cfg (success_rate world epoch) best));
         best_success_rate :=
           best_success_rate (epochs rank cfg world (S epoch) todo
                                (update_best rank cfg (success_rate world epoch) best));
         result :=
           result (epochs rank cfg world (S epoch) todo
                     (update_best rank cfg (success_rate world epoch) best)) |}
    else
      {| trace := emitted (epoch_step rank cfg (world epoch) epoch best);
         best_success_rate := update_best rank cfg (success_rate world epoch) best;
         result := AssertionError epoch |}.
Proof. reflexivity. Qed.

(** [train] fails at epoch [e] exactly when [e] is the first epoch whose
    assertion fails. *)
Lemma epochs_aborts (rank : nat) (cfg : params) (world : nat -> epoch_data) (todo : nat) :
  forall (epoch : nat) (best : Q) (e : nat),
    result (epochs rank cfg world epoch todo best) = AssertionError e
    <-> (epoch <= e < epoch + todo)%nat
        /\ decorrelated rank (world e) = false
        /\ (forall e', (epoch <= e' < e)%nat -> decorrelated rank (world e') = true).
Proof.
  induction todo as [|todo IH]; intros epoch best e.
  - simpl. split; [discriminate | intros [H _]; lia].
  - rewrite epochs_S. destruct (decorrelated rank (world epoch)) eqn:E; cbn [result].
    + rewrite IH. split.
      * intros (Hr & Hf & Hp). repeat split; [lia | lia | exact Hf |].
        intros e' He'. destruct (Nat.eq_dec e' epoch) as [-> | Hne]; [exact E |].
        apply Hp. lia.
      * intros (Hr & Hf & Hp).
        assert (e <> epoch) by (intros ->; congruence).
        repeat split; [lia | lia | exact Hf |].
        intros e' He'. apply Hp. lia.
    + split.
      * intros [= <-]. repeat split; [lia | lia | exact E |]. intros e' He'. lia.
      * intros (Hr & Hf & Hp).
        destruct (Nat.eq_dec e epoch) as [-> | Hne]; [reflexivity |].
        assert (decorrelated rank (world epoch) = true) by (apply Hp; lia).
        congruence.
Qed.

Lemma epochs_returns (rank : nat) (cfg : params) (world : nat -> epoch_data) (todo : nat) :
  forall (epoch : nat) (best : Q),
    result (epochs rank cfg world epoch todo best) = Returned
    <-> (forall e, (epoch <= e < epoch + todo)%nat -> decorrelated rank (world e) = true).
Proof.
  induction todo as [|todo IH]; intros epoch best.
  - simpl. split; [intros _ e He; lia | reflexivity].
  - rewrite epochs_S. destruct (decorrelated rank (world epoch)) eqn:E; cbn [result].
    + rewrite IH. split.
      * intros H e He. destruct (Nat.eq_dec e epoch) as [-> | Hne]; [exact E |].
        apply H. lia.
      * intros H e He. apply H. lia.
    + split; [discriminate |]. intros H.
      assert (decorrelated rank (world epoch) = true) by (apply H; lia).
      congruence.
Qed.

(** An unaborted run is the sequence of its epochs, the tracker being
    threaded through them. *)
Lemma epochs_unaborted (rank : nat) (cfg : params) (world : nat -> epoch_data) (todo : nat) :
  forall (epoch : nat),
    result (epochs rank cfg world epoch todo (best_before rank cfg world epoch)) = Returned ->
    trace (epochs rank cfg world epoch todo (best_before rank cfg world epoch))
    = flat_map (epoch_trace rank cfg world) (seq epoch todo)
    /\ best_success_rate (epochs rank cfg world epoch todo (best_before rank cfg world epoch))
       = best_before rank cfg world (epoch + todo).
Proof.
  induction todo as [|todo IH]; intros epoch.
  - simpl. now rewrite Nat.add_0_r.
  - rewrite epochs_S. destruct (decorrelated rank (world epoch)); cbn [result trace best_success_rate].
    + intros H. change (update_best rank cfg (success_rate world epoch)
                          (best_before rank cfg world epoch))
        with (best_before rank cfg world (S epoch)) in *.
      destruct (IH (S epoch) H) as [Ht Hb]. rewrite Ht, Hb.
      split; [reflexivity | f_equal; lia].
    + discriminate.
Qed.

Lemma train_unaborted (rank : nat) (cfg : params) (world : nat -> epoch_data) :
  result (train rank cfg world) = Returned ->
  trace (train rank cfg world)
  = prologue cfg ++ flat_map (epoch_trace rank cfg world) (seq 0 (n_epochs cfg))
  /\ best_success_rate (train rank cfg world) = best_before rank cfg world (n_epochs cfg).
Proof.
  unfold train. cbn [result trace best_success_rate]. intros H.
  destruct (epochs_unaborted rank cfg world (n_epochs cfg) 0%nat H) as [Ht Hb].
  change (best_before rank cfg world 0) with initial_best_success_rate in *.
  now rewrite Ht, Hb.
Qed.

Lemma train_rank0_returns (cfg : params) (world : nat -> epoch_data) :
  result (train 0 cfg world) = Returned.
Proof.
  unfold train. cbn [result]. apply epochs_returns. intros e _.
  apply decorrelated_rank0.
Qed.

Lemma train_aborts_iff (rank : nat) (cfg : params) (world : nat -> epoch_data) (e : nat) :
  result (train rank cfg world) = AssertionError e
  <-> rank <> 0%nat /\ (e < n_epochs cfg)%nat
      /\ local_uniform (world e) rank == local_uniform (world e) 0%nat
      /\ (forall e', (e' < e)%nat ->
             ~ local_uniform (world e') rank == local_uniform (world e') 0%nat).
Proof.
  unfold train. cbn [result]. rewrite epochs_aborts.
  rewrite decorrelated_false. split.
  - intros (Hr & [Hne Hq] & Hp). repeat split; [exact Hne | lia | exact Hq |].
    intros e' He'. assert (D : decorrelated rank (world e') = true) by (apply Hp; lia).
    apply decorrelated_true in D as [D | D]; [contradiction | exact D].
  - intros (Hne & Hr & Hq & Hp). repeat split; [lia | lia | exact Hne | exact Hq |].
    intros e' He'. apply decorrelated_true. right. apply Hp. lia.
Qed.



(** A forced collision: rank 1 draws what rank 0 draws in epoch 1. *)
Example forced_collision_aborts :
  result (train 1 scenario_params collision_world) = AssertionError 1
  /\ result (train 0 scenario_params collision_world) = Returned
  /\ result (train 1 scenario_params scenario_world) = Returned.
Proof. repeat split. Qed.

(** *** Properties that hold of every call *)

Lemma epochs_forallb (p : event -> bool) (rank : nat) (cfg : params)
    (world : nat -> epoch_data) :
  (forall epoch best,
      forallb p (emitted (epoch_step rank cfg (world epoch) epoch best)) = true) ->
  forall todo epoch best,
    forallb p (trace (epochs rank cfg world epoch todo best)) = true.
Proof.
  intros H. induction todo as [|todo IH]; intros epoch best.
  - reflexivity.
  - rewrite epochs_S. destruct (decorrelated rank (world epoch)); cbn [trace].
    + now rewrite forallb_app, H, IH.
    + apply H.
Qed.

Lemma rank_guard_false (rank : nat) : rank <> 0%nat -> (rank =? 0)%nat = false.
Proof. intros H. now apply Nat.eqb_neq. Qed.

Lemma other_rank_step (rank : nat) (cfg : params) (d : epoch_data) (epoch : nat) (best : Q) :
  rank <> 0%nat ->
  emitted (epoch_step rank cfg d epoch best)
  = (common cfg d epoch ++ [LoggerInfo (BestSoFar best)])%list
  /\ tracker (epoch_step rank cfg d epoch best) = best.
Proof.
  intros Hr. rewrite emitted_split.
  unfold epoch_step, dump, save_best, save_periodic, update_best, is_new_best, is_periodic.
  cbn [tracker]. rewrite (rank_guard_false rank Hr). simpl. split; reflexivity.
Qed.

Lemma unconfigured_step (rank : nat) (cfg : params) (d : epoch_data) (epoch : nat) (best : Q) :
  configured (save_path cfg) = false ->
  emitted (epoch_step rank cfg d epoch best)
  = (common cfg d epoch ++ dump rank ++ [LoggerInfo (BestSoFar best)])%list
  /\ tracker (epoch_step rank cfg d epoch best) = best.
Proof.
  intros Hc. rewrite emitted_split.
  unfold epoch_step, save_best, save_periodic, update_best, is_new_best, is_periodic.
  cbn [tracker]. rewrite Hc, !andb_false_r. simpl. split; reflexivity.
Qed.

(** Without a checkpoint directory the tracker is handed from epoch to
    epoch unchanged. *)
Lemma unconfigured_epochs (rank : nat) (cfg : params) (world : nat -> epoch_data) :
  configured (save_path cfg) = false ->
  forall todo epoch best,
    best_success_rate (epochs rank cfg world epoch todo best) = best.
Proof.
  intros Hc. induction todo as [|todo IH]; intros epoch best.
  - reflexivity.
  - rewrite epochs_S.
    assert (E : update_best rank cfg (success_rate world epoch) best = best).
    { unfold update_best, is_new_best. now rewrite Hc, !andb_false_r. }
    rewrite E. destruct (decorrelated rank (world epoch)); cbn [best_success_rate].
    + apply IH.
    + reflexivity.
Qed.

Lemma saves_unchecked (tr : list event) :
  forallb (fun ev => negb (checkpointing ev)) tr = true -> saves tr = [].
Proof.
  intros H. apply saves_none. rewrite forallb_forall in *.
  intros ev Hev. specialize (H ev Hev). now destruct ev.
Qed.

Lemma prologue_forallb (p : event -> bool) (cfg : params) :
  p (LoggerInfo Training) = true -> (forall f, p (InitDemoBuffer f) = true) ->
  forallb p (prologue cfg) = true.
Proof.
  intros H1 H2. unfold prologue. simpl. rewrite H1.
  destruct (bc_loss cfg =? 1)%Z; simpl; [now rewrite H2 | reflexivity].
Qed.

Lemma unconfigured_no_checkpointing (rank : nat) (cfg : params) (world : nat -> epoch_data) :
  configured (save_path cfg) = false ->
  forallb (fun ev => negb (checkpointing ev)) (trace (train rank cfg world)) = true.
Proof.
  intros Hc. unfold train. cbn [trace]. rewrite forallb_app.
  rewrite prologue_forallb by reflexivity.
  apply epochs_forallb. intros epoch best.
  destruct (unconfigured_step rank cfg (world epoch) epoch best Hc) as [E _].
  rewrite E, !forallb_app, common_forallb by reflexivity.
  unfold dump. now destruct (rank =? 0)%nat.
Qed.

Lemma unconfigured_best_so_far (rank : nat) (cfg : params) (world : nat -> epoch_data) :
  configured (save_path cfg) = false ->
  forall todo epoch best r,
    In (LoggerInfo (BestSoFar r)) (trace (epochs rank cfg world epoch todo best)) ->
    r = best.
Proof.
  intros Hc. induction todo as [|todo IH]; intros epoch best r.
  - simpl. contradiction.
  - rewrite epochs_S.
    assert (E : update_best rank cfg (success_rate world epoch) best = best).
    { unfold update_best, is_new_best. now rewrite Hc, !andb_false_r. }
    rewrite E.
    assert (S : In (LoggerInfo (BestSoFar r))
                  (emitted (epoch_step rank cfg (world epoch) epoch best)) -> r = best).
    { destruct (unconfigured_step rank cfg (world epoch) epoch best Hc) as [Es _].
      rewrite Es, !in_app_iff. intros [H | [H | H]].
      - assert (P : forallb (fun ev => match ev with
                                       | LoggerInfo (BestSoFar _) => false
                                       | _ => true
                                       end) (common cfg (world epoch) epoch) = true)
          by now apply common_forallb.
        rewrite forallb_forall in P. specialize (P _ H). discriminate.
      - unfold dump in H. destruct (rank =? 0)%nat; simpl in H.
        + destruct H as [H | H]; [discriminate | contradiction].
        + contradiction.
      - simpl in H. destruct H as [H | H]; [now injection H | contradiction]. }
    destruct (decorrelated rank (world epoch)); cbn [trace].
    + rewrite in_app_iff. intros [H | H]; [now apply S | now apply IH in H].
    + exact S.
Qed.

(** C10: without a configured checkpoint directory, on every rank and
    whatever the success rates are, the tracker ends at the sentinel -1, every
    "best so far" message of the run reports -1, and [train] neither calls
    [save_policy] nor announces a new best or a periodic save. *)
Theorem unconfigured_tracker_frozen (rank : nat) (cfg : params) (world : nat -> epoch_data) :
  configured (save_path cfg) = false ->
  best_success_rate (train rank cfg world) = initial_best_success_rate
  /\ (forall r, In (LoggerInfo (BestSoFar r)) (trace (train rank cfg world)) ->
             r = initial_best_success_rate)
  /\ (forall e, best_before rank cfg world e = initial_best_success_rate)
  /\ saves (trace (train rank cfg world)) = []
  /\ forallb (fun ev => negb (checkpointing ev)) (trace (train rank cfg world)) = true.
Proof.
  intros Hc. split; [| split; [| split; [| split]]].
  - unfold train. cbn [best_success_rate]. now apply unconfigured_epochs.
  - intros r. unfold train. cbn [trace]. rewrite in_app_iff. intros [H | H].
    + unfold prologue in H. simpl in H. destruct H as [H | H]; [discriminate |].
      destruct (bc_loss cfg =? 1)%Z; simpl in H; [| contradiction].
      destruct H as [H | H]; [discriminate | contradiction].
    + now apply (unconfigured_best_so_far rank cfg world Hc) in H.
  - induction e as [|e IH]; [reflexivity |]. cbn [best_before]. rewrite IH.
    unfold update_best, is_new_best. now rewrite Hc, !andb_false_r.
  - apply saves_unchecked. now apply unconfigured_no_checkpointing.
  - now apply unconfigured_no_checkpointing.
Qed.

Lemma unconfigured_tracker_frozen_witness :
  initial_best_success_rate < success_rate scenario_world 1
  /\ best_success_rate (train 0 unconfigured_params scenario_world)
     = initial_best_success_rate
  /\ saves (trace (train 0 unconfigured_params scenario_world)) = [].
Proof.
  split; [reflexivity |].
  destruct (unconfigured_tracker_frozen 0 unconfigured_params scenario_world eq_refl)
    as (Hb & _ & _ & Hs & _).
  split; [exact Hb | exact Hs].
Defined.

(** *** What depends on the rank *)

Lemma filter_all {A : Type} (p : A -> bool) (xs : list A) :
  forallb p xs = true -> filter p xs = xs.
Proof.
  induction xs as [|x xs IH]; simpl; [reflexivity |].
  intros H. apply andb_prop in H as [Hx Hxs]. now rewrite Hx, IH.
Qed.

(** Whatever the rank and the tracker, the calls of an epoch that are
    neither logging nor checkpointing are those of [common]. *)
Lemma numeric_epoch_step (rank : nat) (cfg : params) (d : epoch_data) (epoch : nat) (best : Q) :
  filter numeric (emitted (epoch_step rank cfg d epoch best))
  = filter numeric (common cfg d epoch).
Proof.
  rewrite emitted_split, !filter_app.
  unfold dump, save_best, save_periodic.
  destruct (rank =? 0)%nat, (is_new_best rank cfg _ best), (is_periodic rank cfg epoch);
    simpl; now rewrite app_nil_r.
Qed.

Lemma numeric_epochs (rank : nat) (cfg : params) (world : nat -> epoch_data) (todo : nat) :
  forall (epoch : nat) (best : Q),
    filter numeric (trace (epochs rank cfg world epoch todo best))
    = flat_map (fun e => filter numeric (common cfg (world e) e))
        (seq epoch (epochs_entered (result (epochs rank cfg world epoch todo best))
                      (epoch + todo) - epoch)).
Proof.
  induction todo as [|todo IH]; intros epoch best.
  - simpl. now rewrite Nat.add_0_r, Nat.sub_diag.
  - rewrite epochs_S. destruct (decorrelated rank (world epoch)) eqn:E; cbn [trace result].
    + rewrite filter_app, numeric_epoch_step, IH.
      set (rest := epochs rank cfg world (S epoch) todo _).
      assert (G : (epochs_entered (result rest) (epoch + S todo) - epoch
                   = S (epochs_entered (result rest) (S epoch + todo) - S epoch))%nat).
      { destruct (result rest) as [|e] eqn:R; cbn [epochs_entered]; [lia |].
        apply epochs_aborts in R. destruct R as [R _]. lia. }
      rewrite G. reflexivity.
    + cbn [epochs_entered]. replace (S epoch - epoch)%nat with 1%nat by lia.
      rewrite numeric_epoch_step. simpl. now rewrite app_nil_r.
Qed.

Lemma numeric_train (rank : nat) (cfg : params) (world : nat -> epoch_data) :
  filter numeric (trace (train rank cfg world))
  = (filter numeric (prologue cfg)
       ++ flat_map (fun e => filter numeric (common cfg (world e) e))
            (seq 0 (epochs_entered (result (train rank cfg world)) (n_epochs cfg))))%list.
Proof.
  unfold train. cbn [trace result]. rewrite filter_app, numeric_epochs.
  now rewrite Nat.add_0_l, Nat.sub_0_r.
Qed.

Lemma other_rank_not_coordinator (rank : nat) (cfg : params) (world : nat -> epoch_data) :
  rank <> 0%nat ->
  forallb (fun ev => negb (coordinator_only ev)) (trace (train rank cfg world)) = true.
Proof.
  intros Hr. unfold train. cbn [trace]. rewrite forallb_app.
  rewrite prologue_forallb by reflexivity.
  apply epochs_forallb. intros epoch best.
  destruct (other_rank_step rank cfg (world epoch) epoch best Hr) as [E _].
  now rewrite E, forallb_app, common_forallb.
Qed.







(** *** The periodic save *)

Lemma is_periodic_rank0 (cfg : params) (epoch : nat) :
  configured (save_path cfg) = true ->
  is_periodic 0 cfg epoch = true
  <-> (0 < policy_save_interval cfg)%Z
      /\ (Z.of_nat epoch mod policy_save_interval cfg = 0)%Z.
Proof.
  intros Hc. unfold is_periodic. rewrite Hc, andb_true_r. simpl.
  now rewrite andb_true_iff, Z.ltb_lt, Z.eqb_eq.
Qed.

Lemma periodic_saved_iff (cfg : params) (d : epoch_data) (epoch : nat) (best : Q) :
  In (periodic_policy_path (save_dir (save_path cfg)) epoch)
     (saves (emitted (epoch_step 0 cfg d epoch best)))
  <-> is_periodic 0 cfg epoch = true.
Proof.
  rewrite saves_epoch_step, in_app_iff. split.
  - intros [H | H].
    + destruct (is_new_best 0 cfg _ best); simpl in H; [| contradiction].
      destruct H as [H | [H | H]]; [| | contradiction]; symmetry in H.
      * now apply periodic_not_best in H.
      * now apply periodic_not_latest in H.
    + destruct (is_periodic 0 cfg epoch); [reflexivity | contradiction].
  - intros ->. right. now left.
Qed.

(** The checkpoints written by the coordinator, epoch by epoch. *)
Lemma saves_train_rank0 (cfg : params) (world : nat -> epoch_data) :
  saves (trace (train 0 cfg world))
  = flat_map (fun e => saves (epoch_trace 0 cfg world e)) (seq 0 (n_epochs cfg)).
Proof.
  destruct (train_unaborted 0 cfg world (train_rank0_returns cfg world)) as [Ht _].
  now rewrite Ht, saves_app, saves_prologue, saves_flat_map.
Qed.

Lemma periodic_saved_in_run (cfg : params) (world : nat -> epoch_data) (epoch : nat) :
  In (periodic_policy_path (save_dir (save_path cfg)) epoch)
     (saves (trace (train 0 cfg world)))
  <-> (epoch < n_epochs cfg)%nat /\ is_periodic 0 cfg epoch = true.
Proof.
  rewrite saves_train_rank0, in_flat_map. split.
  - intros (e & He & H). apply in_seq in He. unfold epoch_trace in H.
    assert (E : epoch = e).
    { rewrite saves_epoch_step, in_app_iff in H. destruct H as [H | H].
      - destruct (is_new_best 0 cfg _ _); simpl in H; [| contradiction].
        destruct H as [H | [H | H]]; [| | contradiction]; symmetry in H.
        + now apply periodic_not_best in H.
        + now apply periodic_not_latest in H.
      - destruct (is_periodic 0 cfg e); simpl in H; [| contradiction].
        destruct H as [H | H]; [| contradiction].
        symmetry. now apply periodic_inj in H. }
    subst e. split; [lia |]. now apply periodic_saved_iff in H.
  - intros [He Hp]. exists epoch. split; [apply in_seq; lia |].
    unfold epoch_trace. now apply periodic_saved_iff.
Qed.

(** X19: on rank 0 with a checkpoint directory without braces in its name,
    epoch [e] requests a write of the periodic checkpoint of [e] -- the
    joined path of line 33 formatted with [e] -- exactly when the interval K
    is positive and [e mod K = 0]: never for K = 0, exactly at the multiples
    of 3 for K = 3, and whether or not the best-update fires, the writes of
    the epoch being those of the best-update followed by the periodic one.
    Over a whole run the periodic checkpoint of [e] is written exactly when
    [e] is one of its epochs and satisfies this condition. *)
Theorem periodic_save_iff (cfg : params) (d : epoch_data) (epoch : nat) (best : Q) :
  configured (save_path cfg) = true ->
  brace_free (save_dir (save_path cfg)) = true ->
  format (periodic_template (save_dir (save_path cfg))) epoch
  = Formatted (periodic_policy_path (save_dir (save_path cfg)) epoch)
  /\ request_periodic 0 cfg epoch
     = (if (0 <? policy_save_interval cfg)%Z
           && (Z.of_nat epoch mod policy_save_interval cfg =? 0)%Z
        then Save (periodic_policy_path (save_dir (save_path cfg)) epoch)
        else NoSave)
  /\ (In (periodic_policy_path (save_dir (save_path cfg)) epoch)
      (saves (emitted (epoch_step 0 cfg d epoch best)))
   <-> (0 < policy_save_interval cfg)%Z
       /\ (Z.of_nat epoch mod policy_save_interval cfg = 0)%Z)
  /\ (policy_save_interval cfg = 0%Z ->
      ~ In (periodic_policy_path (save_dir (save_path cfg)) epoch)
           (saves (emitted (epoch_step 0 cfg d epoch best))))
  /\ (policy_save_interval cfg = 3%Z ->
      (In (periodic_policy_path (save_dir (save_path cfg)) epoch)
          (saves (emitted (epoch_step 0 cfg d epoch best)))
       <-> exists j : nat, epoch = (3 * j)%nat))
  /\ saves (emitted (epoch_step 0 cfg d epoch best))
     = ((if is_new_best 0 cfg (mpi_average (current_success_rate d)) best
         then [best_policy_path (save_dir (save_path cfg));
               latest_policy_path (save_dir (save_path cfg))]
         else [])
        ++ (if (0 <? policy_save_interval cfg)%Z
               && (Z.of_nat epoch mod policy_save_interval cfg =? 0)%Z
            then [periodic_policy_path (save_dir (save_path cfg)) epoch]
            else []))%list
  /\ (forall world : nat -> epoch_data,
        In (periodic_policy_path (save_dir (save_path cfg)) epoch)
           (saves (trace (train 0 cfg world)))
        <-> (epoch < n_epochs cfg)%nat
            /\ (0 < policy_save_interval cfg)%Z
            /\ (Z.of_nat epoch mod policy_save_interval cfg = 0)%Z).
Proof.
  intros Hc Hb.
  assert (I : In (periodic_policy_path (save_dir (save_path cfg)) epoch)
                 (saves (emitted (epoch_step 0 cfg d epoch best)))
              <-> (0 < policy_save_interval cfg)%Z
                  /\ (Z.of_nat epoch mod policy_save_interval cfg = 0)%Z).
  { rewrite periodic_saved_iff. now apply is_periodic_rank0. }
  split; [now apply format_periodic_path |]. split.
  { rewrite (request_periodic_brace_free 0 cfg epoch Hb).
    unfold is_periodic. now rewrite Hc, andb_true_r. }
  split; [exact I |]. split; [| split; [| split]].
  - intros K0. rewrite I, K0. lia.
  - intros K3. rewrite I, K3. split.
    + intros [_ H]. exists (Z.to_nat (Z.of_nat epoch / 3)).
      pose proof (Z.div_mod (Z.of_nat epoch) 3). lia.
    + intros [j ->]. split; [lia |].
      rewrite Nat2Z.inj_mul, Z.mul_comm. apply Z.mod_mul. lia.
  - rewrite saves_epoch_step. unfold is_periodic. now rewrite Hc, andb_true_r.
  - intros world. rewrite periodic_saved_in_run, (is_periodic_rank0 cfg epoch Hc).
    tauto.
Qed.

Lemma periodic_save_iff_witness :
  In (periodic_policy_path "ckpt" 6)
     (saves (emitted (epoch_step 0 periodic_params (scenario_world 6) 6 (5 # 10)))).
Proof.
  destruct (periodic_save_iff periodic_params (scenario_world 6) 6 (5 # 10)
              eq_refl eq_refl)
    as (_ & _ & _ & _ & H3 & _ & _).
  apply (H3 eq_refl). exists 2%nat. reflexivity.
Defined.

(** C5, at a failing input: with the checkpoint directory "c{}" and K = 1,
    on rank 0 in epoch 0, the guard of line 96 holds (K > 0, 0 mod K = 0, a
    directory is configured), so a periodic write is due; but line 97 formats
    the whole joined path "c{}/policy_{}.pkl" with the one argument, the
    second placeholder has no argument, and the call raises before
    [save_policy] is reached: no periodic checkpoint is requested.  The
    best and the latest path of the same directory are used unformatted.
    With the directory "{{}}" the formatting succeeds but the periodic file
    goes to the directory "{}". *)
Theorem periodic_save_fails_with_braces :
  configured (save_path braces_params) = true
  /\ (0 < policy_save_interval braces_params)%Z
  /\ (Z.of_nat 0 mod policy_save_interval braces_params = 0)%Z
  /\ is_periodic 0 braces_params 0 = true
  /\ periodic_template (save_dir (save_path braces_params)) = "c{}/policy_{}.pkl"%string
  /\ format (periodic_template (save_dir (save_path braces_params))) 0 = FormatError
  /\ request_periodic 0 braces_params 0 = Raises
  /\ (forall path, request_periodic 0 braces_params 0 <> Save path)
  /\ best_policy_path (save_dir (save_path braces_params)) = "c{}/policy_best.pkl"%string
  /\ latest_policy_path (save_dir (save_path braces_params))
     = "c{}/policy_latest.pkl"%string
  /\ format (periodic_template "{{}}") 0 = Formatted "{}/policy_0.pkl"
  /\ best_policy_path "{{}}" = "{{}}/policy_best.pkl"%string.
Proof.
  repeat split; try reflexivity. intros path. discriminate.
Qed.

(** *** The best-update *)

Lemma is_new_best_rank0 (cfg : params) (s best : Q) :
  configured (save_path cfg) = true ->
  is_new_best 0 cfg s best = true <-> best <= s.
Proof.
  intros Hc. unfold is_new_best. rewrite Hc, andb_true_r. simpl.
  apply Qle_bool_iff.
Qed.




Section Monotone.

Variable cfg : params.
Variable world : nat -> epoch_data.
Variable k : nat.

Hypothesis Hconfigured : configured (save_path cfg) = true.
Hypothesis Hfirst : initial_best_success_rate <= success_rate world 0.
Hypothesis Hmonotone :
  forall e, (e < k)%nat -> success_rate world e <= success_rate world (S e).

(** On a non-decreasing sequence every epoch is a new best, so the tracker
    holds the rate of the last epoch ... *)
Lemma monotone_tracker (j : nat) :
  (j <= k)%nat ->
  is_new_best 0 cfg (success_rate world j) (best_before 0 cfg world j) = true
  /\ best_before 0 cfg world (S j) = success_rate world j.
Proof.
  induction j as [|j IH]; intros Hj.
  - assert (N : is_new_best 0 cfg (success_rate world 0) (best_before 0 cfg world 0) = true)
      by now apply is_new_best_rank0.
    split; [exact N |]. cbn [best_before] in *. unfold update_best. now rewrite N.
  - destruct IH as [_ IH]; [lia |].
    assert (N : is_new_best 0 cfg (success_rate world (S j))
                  (best_before 0 cfg world (S j)) = true).
    { apply is_new_best_rank0; [exact Hconfigured |]. rewrite IH. apply Hmonotone. lia. }
    split; [exact N |].
    change (best_before 0 cfg world (S (S j)))
      with (update_best 0 cfg (success_rate world (S j)) (best_before 0 cfg world (S j))).
    unfold update_best. now rewrite N.
Qed.


End Monotone.



(** *** The end-to-end scenario *)

(** C2, as stated: with one worker, a checkpoint directory, two epochs,
    K = 0 and the rates 0.2 and 0.5, the tracker ends at 0.5 and there is
    exactly one write of the "best" checkpoint, in epoch 1.  This fails: the
    first rate already beats the sentinel, so epoch 0 writes the "best"
    checkpoint too and the run has two such writes. *)
Lemma scenario_not_one_best_write :
  ~ (best_success_rate (train 0 scenario_params scenario_world) == 5 # 10
     /\ count_saves (best_policy_path "ckpt") (trace (train 0 scenario_params scenario_world))
        = 1%nat
     /\ count_saves (best_policy_path "ckpt") (epoch_trace 0 scenario_params scenario_world 0)
        = 0%nat
     /\ count_saves (best_policy_path "ckpt") (epoch_trace 0 scenario_params scenario_world 1)
        = 1%nat
     /\ count_saves (latest_policy_path "ckpt") (trace (train 0 scenario_params scenario_world))
        = count_saves (best_policy_path "ckpt") (trace (train 0 scenario_params scenario_world))
     /\ (forall e, count_saves (periodic_policy_path "ckpt" e)
                     (trace (train 0 scenario_params scenario_world)) = 0%nat)).
Proof.
  intros (_ & H & _). vm_compute in H. discriminate.
Qed.

(** C2, amended: with one worker (rank 0), a checkpoint directory, two
    epochs, K = 0 and the aggregated rates 0.2 and 0.5, the run returns with
    the tracker at 0.5; both epochs update the best, so the "best" checkpoint
    is written twice (epochs 0 and 1), each time followed by one write of the
    "latest" checkpoint, and there is no periodic write. *)
Theorem scenario_two_best_writes (cfg : params) (world : nat -> epoch_data) :
  n_epochs cfg = 2%nat ->
  policy_save_interval cfg = 0%Z ->
  configured (save_path cfg) = true ->
  success_rate world 0 == 2 # 10 ->
  success_rate world 1 == 5 # 10 ->
  result (train 0 cfg world) = Returned
  /\ best_success_rate (train 0 cfg world) == 5 # 10
  /\ saves (epoch_trace 0 cfg world 0)
     = [best_policy_path (save_dir (save_path cfg));
        latest_policy_path (save_dir (save_path cfg))]
  /\ saves (epoch_trace 0 cfg world 1)
     = [best_policy_path (save_dir (save_path cfg));
        latest_policy_path (save_dir (save_path cfg))]
  /\ saves (trace (train 0 cfg world))
     = [best_policy_path (save_dir (save_path cfg));
        latest_policy_path (save_dir (save_path cfg));
        best_policy_path (save_dir (save_path cfg));
        latest_policy_path (save_dir (save_path cfg))]
  /\ count_saves (best_policy_path (save_dir (save_path cfg))) (trace (train 0 cfg world))
     = 2%nat
  /\ count_saves (latest_policy_path (save_dir (save_path cfg))) (trace (train 0 cfg world))
     = 2%nat
  /\ (forall e, count_saves (periodic_policy_path (save_dir (save_path cfg)) e)
                  (trace (train 0 cfg world)) = 0%nat).
Proof.
  intros Hn HK Hc H0 H1.
  destruct (train_unaborted 0 cfg world (train_rank0_returns cfg world)) as [Ht Hb].
  rewrite Hn in Ht, Hb.
  assert (Hf : initial_best_success_rate <= success_rate world 0)
    by (rewrite H0; discriminate).
  assert (Hm : forall e, (e < 1)%nat -> success_rate world e <= success_rate world (S e)).
  { intros e He. replace e with 0%nat by lia. rewrite H0, H1. discriminate. }
  destruct (monotone_tracker cfg world 1 Hc Hf Hm 0%nat (le_S _ _ (le_n 0))) as [N0 _].
  destruct (monotone_tracker cfg world 1 Hc Hf Hm 1%nat (le_n 1)) as [N1 B1].
  assert (P : forall e, is_periodic 0 cfg e = false).
  { intros e. unfold is_periodic. now rewrite HK. }
  assert (S0 : saves (epoch_trace 0 cfg world 0)
               = [best_policy_path (save_dir (save_path cfg));
                  latest_policy_path (save_dir (save_path cfg))]).
  { unfold epoch_trace. rewrite saves_epoch_step, P.
    unfold success_rate in N0. now rewrite N0. }
  assert (S1 : saves (epoch_trace 0 cfg world 1)
               = [best_policy_path (save_dir (save_path cfg));
                  latest_policy_path (save_dir (save_path cfg))]).
  { unfold epoch_trace. rewrite saves_epoch_step, P.
    unfold success_rate in N1. now rewrite N1. }
  assert (St : saves (trace (train 0 cfg world))
               = [best_policy_path (save_dir (save_path cfg));
                  latest_policy_path (save_dir (save_path cfg));
                  best_policy_path (save_dir (save_path cfg));
                  latest_policy_path (save_dir (save_path cfg))]).
  { rewrite Ht, saves_app, saves_prologue. cbn [seq flat_map].
    now rewrite !saves_app, S0, S1. }
  pose proof (best_not_latest (save_dir (save_path cfg))) as Hbl.
  split; [apply train_rank0_returns |]. split; [now rewrite Hb, B1 |].
  split; [exact S0 |]. split; [exact S1 |]. split; [exact St |].
  unfold count_saves. rewrite St. cbn [filter].
  rewrite !String.eqb_refl.
  assert (E1 : String.eqb (best_policy_path (save_dir (save_path cfg)))
                 (latest_policy_path (save_dir (save_path cfg))) = false)
    by now apply String.eqb_neq.
  assert (E2 : String.eqb (latest_policy_path (save_dir (save_path cfg)))
                 (best_policy_path (save_dir (save_path cfg))) = false)
    by (apply String.eqb_neq; congruence).
  rewrite E1, E2. split; [reflexivity |]. split; [reflexivity |].
  intros e.
  assert (E3 : String.eqb (periodic_policy_path (save_dir (save_path cfg)) e)
                 (best_policy_path (save_dir (save_path cfg))) = false)
    by (apply String.eqb_neq; apply periodic_not_best).
  assert (E4 : String.eqb (periodic_policy_path (save_dir (save_path cfg)) e)
                 (latest_policy_path (save_dir (save_path cfg))) = false)
    by (apply String.eqb_neq; apply periodic_not_latest).
  now rewrite E3, E4.
Qed.

(** The rates 0.6 and 0.3: the best-update fires in epoch 0 and not in
    epoch 1, and the tracker ends at 0.6. *)
Example decreasing_scenario :
  saves (epoch_trace 0 scenario_params decreasing_world 0)
  = ["ckpt/policy_best.pkl"%string; "ckpt/policy_latest.pkl"%string]
  /\ saves (epoch_trace 0 scenario_params decreasing_world 1) = []
  /\ best_success_rate (train 0 scenario_params decreasing_world) = 6 # 10.
Proof. repeat split. Qed.

Lemma scenario_two_best_writes_witness :
  best_success_rate (train 0 scenario_params scenario_world) == 5 # 10
  /\ count_saves (best_policy_path "ckpt") (trace (train 0 scenario_params scenario_world))
     = 2%nat.
Proof.
  destruct (scenario_two_best_writes scenario_params scenario_world)
    as (_ & Hb & _ & _ & _ & Hc & _); try reflexivity.
  split; [exact Hb | exact Hc].
Defined.

End TrainingFacts.

(** * Further properties of the training loop *)

Import Calls.

Section TrackerFacts.

Local Open Scope Q_scope.

(** The tracker a run ends with is the one it holds after the epochs it has
    entered, whether it returns or fails its assertion. *)
Lemma epochs_tracker (rank : nat) (cfg : params) (world : nat -> epoch_data) (todo : nat) :
  forall epoch : nat,
    best_success_rate (epochs rank cfg world epoch todo (best_before rank cfg world epoch))
    = best_before rank cfg world
        (epochs_entered
           (result (epochs rank cfg world epoch todo (best_before rank cfg world epoch)))
           (epoch + todo)).
Proof.
  induction todo as [|todo IH]; intros epoch.
  - simpl. now rewrite Nat.add_0_r.
  - rewrite epochs_S.
    change (update_best rank cfg (success_rate world epoch) (best_before rank cfg world epoch))
      with (best_before rank cfg world (S epoch)).
    destruct (decorrelated rank (world epoch)); cbn [best_success_rate result].
    + rewrite IH. f_equal.
      destruct (result (epochs rank cfg world (S epoch) todo _));
        cbn [epochs_entered]; lia.
    + reflexivity.
Qed.

Lemma train_tracker (rank : nat) (cfg : params) (world : nat -> epoch_data) :
  best_success_rate (train rank cfg world)
  = best_before rank cfg world
      (epochs_entered (result (train rank cfg world)) (n_epochs cfg)).
Proof.
  unfold train. cbn [best_success_rate result].
  apply (epochs_tracker rank cfg world (n_epochs cfg) 0%nat).
Qed.






Lemma maximum_compat (x y : Q) (xs : list Q) :
  x == y -> maximum x xs == maximum y xs.
Proof.
  revert x y. induction xs as [|z xs IH]; intros x y H; simpl.
  - exact H.
  - apply IH. now rewrite H.
Qed.



End TrackerFacts.

Section WriteFacts.

Local Open Scope Q_scope.

Lemma other_rank_best_before (rank : nat) (cfg : params) (world : nat -> epoch_data) :
  rank <> 0%nat -> forall e, best_before rank cfg world e = initial_best_success_rate.
Proof.
  intros Hr. induction e as [|e IH]; [reflexivity |].
  cbn [best_before]. rewrite IH. unfold update_best, is_new_best.
  now rewrite (rank_guard_false rank Hr).
Qed.

Lemma other_rank_best_so_far (rank : nat) (cfg : params) (world : nat -> epoch_data) :
  rank <> 0%nat ->
  forall todo epoch best r,
    In (LoggerInfo (BestSoFar r)) (trace (epochs rank cfg world epoch todo best)) ->
    r = best.
Proof.
  intros Hr. induction todo as [|todo IH]; intros epoch best r.
  - simpl. contradiction.
  - rewrite epochs_S.
    assert (E : update_best rank cfg (success_rate world epoch) best = best).
    { unfold update_best, is_new_best. now rewrite (rank_guard_false rank Hr). }
    rewrite E.
    assert (S : In (LoggerInfo (BestSoFar r))
                  (emitted (epoch_step rank cfg (world epoch) epoch best)) -> r = best).
    { destruct (other_rank_step rank cfg (world epoch) epoch best Hr) as [Es _].
      rewrite Es, in_app_iff. intros [H | H].
      - assert (P : forallb (fun ev => match ev with
                                       | LoggerInfo (BestSoFar _) => false
                                       | _ => true
                                       end) (common cfg (world epoch) epoch) = true)
          by now apply common_forallb.
        rewrite forallb_forall in P. specialize (P _ H). discriminate.
      - simpl in H. destruct H as [H | H]; [now injection H | contradiction]. }
    destruct (decorrelated rank (world epoch)); cbn [trace].
    + rewrite in_app_iff. intros [H | H]; [now apply S | now apply IH in H].
    + exact S.
Qed.

(** X3: on a rank other than 0 the tracker is never assigned, with or
    without a checkpoint directory and whatever the success rates are:
    [train] ends with the sentinel -1 as its best success rate, and every
    "best success rate so far" message of that rank reports -1. *)
Theorem other_ranks_report_sentinel (rank : nat) (cfg : params)
    (world : nat -> epoch_data) :
  rank <> 0%nat ->
  best_success_rate (train rank cfg world) = initial_best_success_rate
  /\ (forall e, best_before rank cfg world e = initial_best_success_rate)
  /\ (forall r, In (LoggerInfo (BestSoFar r)) (trace (train rank cfg world)) ->
            r = initial_best_success_rate).
Proof.
  intros Hr. split; [| split].
  - rewrite train_tracker. now apply other_rank_best_before.
  - now apply other_rank_best_before.
  - intros r. unfold train. cbn [trace]. rewrite in_app_iff. intros [H | H].
    + unfold prologue in H. simpl in H. destruct H as [H | H]; [discriminate |].
      destruct (bc_loss cfg =? 1)%Z; simpl in H; [| contradiction].
      destruct H as [H | H]; [discriminate | contradiction].
    + now apply (other_rank_best_so_far rank cfg world Hr) in H.
Qed.

Lemma other_ranks_report_sentinel_witness :
  initial_best_success_rate < success_rate scenario_world 0
  /\ best_success_rate (train 1 scenario_params scenario_world)
     = initial_best_success_rate.
Proof.
  split; [reflexivity |].
  destruct (other_ranks_report_sentinel 1 scenario_params scenario_world) as (H & _).
  - discriminate.
  - exact H.
Defined.

Lemma filter_flat_map_length {A B : Type} (p q : B -> bool) (f : A -> list B)
    (xs : list A) :
  (forall x, length (filter p (f x)) = length (filter q (f x))) ->
  length (filter p (flat_map f xs)) = length (filter q (flat_map f xs)).
Proof.
  intros H. induction xs as [|x xs IH]; simpl; [reflexivity |].
  now rewrite !filter_app, !length_app, H, IH.
Qed.

Lemma other_rank_saves (rank : nat) (cfg : params) (world : nat -> epoch_data) :
  rank <> 0%nat -> saves (trace (train rank cfg world)) = [].
Proof.
  intros Hr. pose proof (other_rank_not_coordinator rank cfg world Hr) as Hc.
  apply saves_none. rewrite forallb_forall in *. intros ev Hev.
  specialize (Hc ev Hev). now destruct ev.
Qed.

Lemma eqb_false_of_neq (a b : string) : a <> b -> String.eqb a b = false.
Proof. intros H. now apply String.eqb_neq. Qed.

Lemma saves_blocks (cfg : params) (world : nat -> epoch_data) :
  saves (trace (train 0 cfg world))
  = flat_map
      (fun e =>
         (if is_new_best 0 cfg (success_rate world e) (best_before 0 cfg world e)
          then [best_policy_path (save_dir (save_path cfg));
                latest_policy_path (save_dir (save_path cfg))]
          else [])
         ++ (if is_periodic 0 cfg e
             then [periodic_policy_path (save_dir (save_path cfg)) e]
             else []))%list
      (seq 0 (n_epochs cfg)).
Proof.
  rewrite saves_train_rank0. apply flat_map_ext. intros e.
  unfold epoch_trace. apply saves_epoch_step.
Qed.

(** X4: the checkpoint files a run of the coordinator writes, in order,
    for a directory without braces in its name: epoch after epoch, the best
    and then the latest policy when the rate of the epoch is at least the
    tracker, followed by the periodic file of the epoch -- the joined path of
    line 33 formatted with the epoch -- when it is due.  On every rank the
    best and the latest file are written equally often. *)
Theorem checkpoint_writes_in_order (rank : nat) (cfg : params)
    (world : nat -> epoch_data) :
  brace_free (save_dir (save_path cfg)) = true ->
  (forall e,
      request_periodic 0 cfg e
      = if is_periodic 0 cfg e
        then Save (periodic_policy_path (save_dir (save_path cfg)) e)
        else NoSave)
  /\ saves (trace (train 0 cfg world))
  = flat_map
      (fun e =>
         (if is_new_best 0 cfg (success_rate world e) (best_before 0 cfg world e)
          then [best_policy_path (save_dir (save_path cfg));
                latest_policy_path (save_dir (save_path cfg))]
          else [])
         ++ (if is_periodic 0 cfg e
             then [periodic_policy_path (save_dir (save_path cfg)) e]
             else []))%list
      (seq 0 (n_epochs cfg))
  /\ count_saves (best_policy_path (save_dir (save_path cfg)))
       (trace (train rank cfg world))
     = count_saves (latest_policy_path (save_dir (save_path cfg)))
         (trace (train rank cfg world)).
Proof.
  intros Hb.
  pose proof (saves_blocks cfg world) as F.
  split; [intros e; now apply request_periodic_brace_free |].
  split; [exact F |].
  destruct (Nat.eq_dec rank 0) as [-> | Hr].
  - unfold count_saves. rewrite F. apply filter_flat_map_length. intros e.
    pose proof (best_not_latest (save_dir (save_path cfg))) as Hbl.
    pose proof (periodic_not_best (save_dir (save_path cfg)) e) as Hpb.
    pose proof (periodic_not_latest (save_dir (save_path cfg)) e) as Hpl.
    rewrite !filter_app.
    destruct (is_new_best 0 cfg _ _), (is_periodic 0 cfg e); cbn [filter];
      rewrite ?String.eqb_refl,
        ?(eqb_false_of_neq _ _ Hbl),
        ?(eqb_false_of_neq _ _ (not_eq_sym Hbl)),
        ?(eqb_false_of_neq _ _ (not_eq_sym Hpb)),
        ?(eqb_false_of_neq _ _ (not_eq_sym Hpl)); reflexivity.
  - unfold count_saves. now rewrite (other_rank_saves rank cfg world Hr).
Qed.

Lemma checkpoint_writes_in_order_witness :
  saves (trace (train 0 periodic_params decreasing_world))
  = ["ckpt/policy_best.pkl"%string; "ckpt/policy_latest.pkl"%string;
     "ckpt/policy_0.pkl"%string; "ckpt/policy_3.pkl"%string;
     "ckpt/policy_6.pkl"%string].
Proof.
  destruct (checkpoint_writes_in_order 0 periodic_params decreasing_world eq_refl)
    as (_ & H & _).
  exact H.
Defined.

Lemma other_saves_flat_map {A : Type} (dir : string) (f : A -> list string) (xs : list A) :
  other_saves dir (flat_map f xs) = flat_map (fun x => other_saves dir (f x)) xs.
Proof.
  unfold other_saves. induction xs as [|x xs IH]; simpl; [reflexivity |].
  now rewrite filter_app, IH.
Qed.

Lemma flat_map_filter {A B : Type} (p : A -> bool) (f : A -> B) (xs : list A) :
  flat_map (fun x => if p x then [f x] else []) xs = map f (filter p xs).
Proof.
  induction xs as [|x xs IH]; simpl; [reflexivity |].
  destruct (p x); simpl; now rewrite IH.
Qed.

Lemma ceil_step (K n : Z) :
  (0 < K)%Z -> (0 <= n)%Z ->
  ((n + 1 + K - 1) / K = (n + K - 1) / K + (if (n mod K =? 0)%Z then 1 else 0))%Z.
Proof.
  intros HK Hn.
  pose proof (Z.div_mod n K ltac:(lia)) as D.
  pose proof (Z.mod_pos_bound n K HK) as B.
  set (q := (n / K)%Z) in *. set (r := (n mod K)%Z) in *.
  destruct (Z.eqb_spec r 0) as [E | E].
  - rewrite <- (Z.div_unique_pos (n + 1 + K - 1) K (q + 1) 0) by lia.
    rewrite <- (Z.div_unique_pos (n + K - 1) K q (K - 1)) by lia. lia.
  - rewrite <- (Z.div_unique_pos (n + 1 + K - 1) K (q + 1) r) by lia.
    rewrite <- (Z.div_unique_pos (n + K - 1) K (q + 1) (r - 1)) by lia. lia.
Qed.

Lemma periodic_epochs_length (K : Z) (n : nat) :
  (0 < K)%Z ->
  Z.of_nat (length (periodic_epochs K n)) = ((Z.of_nat n + K - 1) / K)%Z.
Proof.
  intros HK. unfold periodic_epochs. induction n as [|n IH].
  - simpl. symmetry. apply Z.div_small. lia.
  - rewrite seq_S, filter_app, length_app, Nat2Z.inj_add, IH.
    replace (Z.of_nat (S n) + K - 1)%Z with (Z.of_nat n + 1 + K - 1)%Z by lia.
    rewrite (ceil_step K (Z.of_nat n) HK) by lia.
    f_equal. simpl. apply Z.ltb_lt in HK. rewrite HK. simpl.
    now destruct (Z.of_nat n mod K =? 0)%Z.
Qed.

Lemma periodic_saves_of_run (cfg : params) (world : nat -> epoch_data) :
  other_saves (save_dir (save_path cfg)) (saves (trace (train 0 cfg world)))
  = map (periodic_policy_path (save_dir (save_path cfg)))
      (filter (is_periodic 0 cfg) (seq 0 (n_epochs cfg))).
Proof.
  rewrite saves_blocks, other_saves_flat_map.
  rewrite <- flat_map_filter. apply flat_map_ext. intros e.
  pose proof (best_not_latest (save_dir (save_path cfg))) as Hbl.
  pose proof (periodic_not_best (save_dir (save_path cfg)) e) as Hpb.
  pose proof (periodic_not_latest (save_dir (save_path cfg)) e) as Hpl.
  unfold other_saves. rewrite filter_app.
  destruct (is_new_best 0 cfg _ _), (is_periodic 0 cfg e); cbn [filter];
    rewrite ?String.eqb_refl,
      ?(eqb_false_of_neq _ _ Hbl),
      ?(eqb_false_of_neq _ _ (not_eq_sym Hbl)),
      ?(eqb_false_of_neq _ _ Hpb),
      ?(eqb_false_of_neq _ _ Hpl); reflexivity.
Qed.

(** X7: with a checkpoint directory without braces in its name and an
    interval K, the files a run of the coordinator writes besides the best
    and the latest policy are the periodic files of the epochs below
    [n_epochs] that K divides, in increasing order; for K > 0 there are
    ceil(n_epochs / K) of them, for K <= 0 none. *)
Theorem periodic_files_of_a_run (cfg : params) (world : nat -> epoch_data) :
  configured (save_path cfg) = true ->
  brace_free (save_dir (save_path cfg)) = true ->
  (forall e,
      format (periodic_template (save_dir (save_path cfg))) e
      = Formatted (periodic_policy_path (save_dir (save_path cfg)) e))
  /\ other_saves (save_dir (save_path cfg)) (saves (trace (train 0 cfg world)))
  = map (periodic_policy_path (save_dir (save_path cfg)))
      (periodic_epochs (policy_save_interval cfg) (n_epochs cfg))
  /\ ((0 < policy_save_interval cfg)%Z ->
      Z.of_nat (length (periodic_epochs (policy_save_interval cfg) (n_epochs cfg)))
      = ((Z.of_nat (n_epochs cfg) + policy_save_interval cfg - 1)
         / policy_save_interval cfg)%Z)
  /\ ((policy_save_interval cfg <= 0)%Z ->
      periodic_epochs (policy_save_interval cfg) (n_epochs cfg) = []).
Proof.
  intros Hc Hb. split; [intros e; now apply format_periodic_path |]. split; [| split].
  - rewrite periodic_saves_of_run. unfold periodic_epochs. f_equal.
    apply filter_ext. intros e. unfold is_periodic. now rewrite Hc, andb_true_r.
  - intros HK. now apply periodic_epochs_length.
  - intros HK. unfold periodic_epochs.
    assert (E : (0 <? policy_save_interval cfg)%Z = false) by (apply Z.ltb_ge; lia).
    rewrite E. simpl. induction (seq 0 (n_epochs cfg)); [reflexivity | exact IHl].
Qed.

Lemma periodic_files_of_a_run_witness :
  other_saves "ckpt" (saves (trace (train 0 periodic_params scenario_world)))
  = ["ckpt/policy_0.pkl"%string; "ckpt/policy_3.pkl"%string; "ckpt/policy_6.pkl"%string].
Proof.
  destruct (periodic_files_of_a_run periodic_params scenario_world eq_refl eq_refl)
    as (_ & H & _).
  exact H.
Defined.

Lemma map_nodup {A B : Type} (f : A -> B) (xs : list A) :
  (forall x y, f x = f y -> x = y) -> NoDup xs -> NoDup (map f xs).
Proof.
  intros Hf. induction 1 as [|x xs Hx _ IH]; simpl; constructor.
  - intros H. apply in_map_iff in H as (y & E & Hy). apply Hf in E. now subst.
  - exact IH.
Qed.

Lemma filter_other_saves (dir path : string) (l : list string) :
  path <> best_policy_path dir -> path <> latest_policy_path dir ->
  filter (String.eqb path) l = filter (String.eqb path) (other_saves dir l).
Proof.
  intros Hb Hl. unfold other_saves. induction l as [|x l IH]; simpl; [reflexivity |].
  destruct (String.eqb_spec path x) as [<- | Hx].
  - rewrite (eqb_false_of_neq _ _ Hb), (eqb_false_of_neq _ _ Hl).
    simpl. rewrite String.eqb_refl. now rewrite IH.
  - destruct (negb _ && negb _); simpl; [| exact IH].
    destruct (String.eqb_spec path x); [contradiction | exact IH].
Qed.

(** X18: checkpoint files do not collide.  For a directory without braces
    in its name, the periodic file of an epoch -- the joined path of line 33
    formatted with the epoch -- differs from the best and from the latest
    file, which differ from each other, and the periodic files of different
    epochs differ; so in a run of the coordinator no periodic file is
    written twice, and none is overwritten by the best or the latest
    policy. *)
Theorem periodic_files_never_overwritten (cfg : params) (world : nat -> epoch_data) :
  brace_free (save_dir (save_path cfg)) = true ->
  (forall e,
      format (periodic_template (save_dir (save_path cfg))) e
      = Formatted (periodic_policy_path (save_dir (save_path cfg)) e))
  /\ (forall e e',
        format (periodic_template (save_dir (save_path cfg))) e
        = format (periodic_template (save_dir (save_path cfg))) e' -> e = e')
  /\ (forall e,
        periodic_policy_path (save_dir (save_path cfg)) e
        <> best_policy_path (save_dir (save_path cfg))
        /\ periodic_policy_path (save_dir (save_path cfg)) e
           <> latest_policy_path (save_dir (save_path cfg))
        /\ best_policy_path (save_dir (save_path cfg))
           <> latest_policy_path (save_dir (save_path cfg)))
  /\ NoDup (other_saves (save_dir (save_path cfg)) (saves (trace (train 0 cfg world))))
  /\ (forall e,
        (count_saves (periodic_policy_path (save_dir (save_path cfg)) e)
           (trace (train 0 cfg world)) <= 1)%nat).
Proof.
  intros Hb.
  assert (N : NoDup (other_saves (save_dir (save_path cfg))
                       (saves (trace (train 0 cfg world))))).
  { rewrite periodic_saves_of_run. apply map_nodup.
    - apply periodic_inj.
    - apply NoDup_filter, seq_NoDup. }
  split; [intros e; now apply format_periodic_path |].
  split; [| split; [| split; [exact N |]]].
  - intros e e' H. rewrite !format_periodic_path in H by assumption.
    injection H as H. now apply periodic_inj in H.
  - intros e. split; [apply periodic_not_best |].
    split; [apply periodic_not_latest | apply best_not_latest].
  - intros e. unfold count_saves.
    set (path := periodic_policy_path (save_dir (save_path cfg)) e).
    rewrite (filter_other_saves (save_dir (save_path cfg)) path)
      by (apply periodic_not_best || apply periodic_not_latest).
    revert N.
    generalize (other_saves (save_dir (save_path cfg)) (saves (trace (train 0 cfg world)))) as l.
    induction l as [|x l IH]; intros N; simpl; [lia |].
    inversion N as [|? ? Hx Hl]; subst.
    destruct (String.eqb_spec path x) as [<- | _]; [| now apply IH].
    simpl. assert (Z : filter (String.eqb path) l = []).
    { clear IH N Hl. induction l as [|y l IH]; simpl; [reflexivity |].
      destruct (String.eqb_spec path y) as [<- | _].
      - exfalso. apply Hx. now left.
      - apply IH. intros H. apply Hx. now right. }
    rewrite Z. simpl. lia.
Qed.

Lemma periodic_files_never_overwritten_witness :
  NoDup (other_saves "ckpt" (saves (trace (train 0 periodic_params scenario_world)))).
Proof.
  destruct (periodic_files_never_overwritten periodic_params scenario_world eq_refl)
    as (_ & _ & _ & H & _).
  exact H.
Defined.

End WriteFacts.

Section CallFacts.

Lemma calls_app (p : event -> bool) (a b : list event) :
  calls p (a ++ b) = (calls p a + calls p b)%nat.
Proof. unfold calls. now rewrite filter_app, length_app. Qed.

Lemma calls_repeat (p : event -> bool) (ev : event) (n : nat) :
  calls p (repeat ev n) = (n * calls p [ev])%nat.
Proof.
  unfold calls. induction n as [|n IH]; simpl; [reflexivity |].
  destruct (p ev) eqn:E; simpl in *; rewrite ?E in *; simpl in *; lia.
Qed.

Lemma calls_concat_repeat (p : event -> bool) (tr : list event) (n : nat) :
  calls p (concat (repeat tr n)) = (n * calls p tr)%nat.
Proof.
  induction n as [|n IH]; simpl; [reflexivity |].
  rewrite calls_app, IH. lia.
Qed.

Lemma calls_flat_map {A : Type} (p : event -> bool) (f : A -> list event)
    (xs : list A) (c : nat) :
  (forall x, calls p (f x) = c) ->
  calls p (flat_map f xs) = (length xs * c)%nat.
Proof.
  intros H. induction xs as [|x xs IH]; simpl; [reflexivity |].
  now rewrite calls_app, H, IH.
Qed.

Lemma calls_record_logs (p : event -> bool) (logs : list (string * list Aggregator.value)) :
  (forall key val, p (RecordTabular key val) = false) ->
  calls p (record_logs logs) = 0%nat.
Proof.
  intros H. unfold calls, record_logs. induction logs as [|kv logs IH]; simpl.
  - reflexivity.
  - now rewrite H.
Qed.

Lemma calls_numeric (p : event -> bool) (tr : list event) :
  (forall ev, p ev = true -> numeric ev = true) ->
  calls p (filter numeric tr) = calls p tr.
Proof.
  intros H. unfold calls. induction tr as [|ev tr IH]; simpl; [reflexivity |].
  destruct (numeric ev) eqn:N; simpl.
  - destruct (p ev); simpl; now rewrite IH.
  - destruct (p ev) eqn:P; [apply H in P; congruence | exact IH].
Qed.

(** The calls of one epoch that do not depend on the rank, counted. *)
Lemma calls_common (p : event -> bool) (cfg : params) (d : epoch_data) (epoch : nat) :
  (forall key val, p (RecordTabular key val) = false) ->
  calls p (common cfg d epoch)
  = (calls p [ClearHistory rollout_worker]
     + n_cycles cfg
       * (calls p [GenerateRollouts rollout_worker] + calls p [StoreEpisode]
          + n_batches cfg * calls p [PolicyTrain] + calls p [UpdateTargetNet])
     + calls p [LoggerInfo Testing] + calls p [ClearHistory evaluator]
     + n_test_rollouts cfg * calls p [GenerateRollouts evaluator])%nat.
Proof.
  intros H. unfold common, collect, test, record, cycle.
  change (ClearHistory rollout_worker :: concat (repeat
            ([GenerateRollouts rollout_worker; StoreEpisode]
               ++ repeat PolicyTrain (n_batches cfg) ++ [UpdateTargetNet]) (n_cycles cfg)))
    with ([ClearHistory rollout_worker] ++ concat (repeat
            ([GenerateRollouts rollout_worker] ++ [StoreEpisode]
               ++ repeat PolicyTrain (n_batches cfg) ++ [UpdateTargetNet]) (n_cycles cfg))).
  change ([LoggerInfo Testing; ClearHistory evaluator]
            ++ repeat (GenerateRollouts evaluator) (n_test_rollouts cfg))
    with ([LoggerInfo Testing] ++ [ClearHistory evaluator]
            ++ repeat (GenerateRollouts evaluator) (n_test_rollouts cfg)).
  change (RecordTabular "epoch" (Epoch epoch)
            :: record_logs (test_logs d) ++ record_logs (train_logs d)
            ++ record_logs (policy_logs d))
    with ([RecordTabular "epoch" (Epoch epoch)]
            ++ record_logs (test_logs d) ++ record_logs (train_logs d)
            ++ record_logs (policy_logs d)).
  rewrite !calls_app, calls_concat_repeat, !calls_app, !calls_repeat,
    !(calls_record_logs p _ H).
  unfold calls at 9. simpl filter. rewrite H. simpl. lia.
Qed.

(** The calls of a whole run that are neither logging nor checkpointing,
    counted: those of the prologue and those of the epochs entered. *)
Lemma calls_train (p : event -> bool) (rank : nat) (cfg : params)
    (world : nat -> epoch_data) (c : nat) :
  (forall ev, p ev = true -> numeric ev = true) ->
  (forall d epoch, calls p (common cfg d epoch) = c) ->
  calls p (trace (train rank cfg world))
  = (calls p (prologue cfg)
     + epochs_entered (result (train rank cfg world)) (n_epochs cfg) * c)%nat.
Proof.
  intros Hn Hc.
  rewrite <- (calls_numeric p _ Hn), numeric_train, calls_app,
    (calls_numeric p _ Hn).
  f_equal.
  rewrite (calls_flat_map p _ _ c).
  - now rewrite length_seq.
  - intros e. rewrite (calls_numeric p _ Hn). apply Hc.
Qed.

Lemma calls_prologue (p : event -> bool) (cfg : params) :
  p (LoggerInfo Training) = false -> (forall f, p (InitDemoBuffer f) = false) ->
  calls p (prologue cfg) = 0%nat.
Proof.
  intros H1 H2. unfold calls, prologue. simpl. rewrite H1.
  destruct (bc_loss cfg =? 1)%Z; simpl; [now rewrite H2 | reflexivity].
Qed.


Lemma calls_zero_filter (p : event -> bool) (tr : list event) :
  calls p tr = 0%nat -> filter p tr = [].
Proof. unfold calls. apply length_zero_iff_nil. Qed.

(** X6: the demonstration buffer is initialised at most once, before the
    first epoch: [policy.init_demo_buffer(demo_file)] is the second call of
    the run when [policy.bc_loss == 1], and is never called otherwise, on any
    rank and however the run ends. *)
Theorem demo_buffer_initialised_once (rank : nat) (cfg : params)
    (world : nat -> epoch_data) :
  filter is_init_demo_buffer (trace (train rank cfg world))
  = (if (bc_loss cfg =? 1)%Z then [InitDemoBuffer (demo_file cfg)] else [])
  /\ ((bc_loss cfg = 1)%Z ->
      nth_error (trace (train rank cfg world)) 1 = Some (InitDemoBuffer (demo_file cfg)))
  /\ ((bc_loss cfg <> 1)%Z ->
      forall f, ~ In (InitDemoBuffer f) (trace (train rank cfg world))).
Proof.
  assert (L : filter is_init_demo_buffer (trace (train rank cfg world))
              = if (bc_loss cfg =? 1)%Z then [InitDemoBuffer (demo_file cfg)] else []).
  { unfold train. cbn [trace]. rewrite filter_app.
    assert (Z0 : filter is_init_demo_buffer
                   (trace (epochs rank cfg world 0 (n_epochs cfg) initial_best_success_rate))
                 = []).
    { apply calls_zero_filter.
      assert (Hn : forall ev, is_init_demo_buffer ev = true -> numeric ev = true)
        by (intros ev H; now destruct ev).
      assert (Hc : forall d epoch,
                 calls is_init_demo_buffer (common cfg d epoch) = 0%nat).
      { intros d epoch. rewrite calls_common by reflexivity. unfold calls. simpl. lia. }
      pose proof (calls_train is_init_demo_buffer rank cfg world 0 Hn Hc) as C.
      unfold train in C. cbn [trace result] in C. rewrite calls_app in C.
      lia. }
    rewrite Z0, app_nil_r. unfold prologue. simpl.
    now destruct (bc_loss cfg =? 1)%Z. }
  split; [exact L |]. split.
  - intros H. unfold train, prologue. cbn [trace]. rewrite H. reflexivity.
  - intros H f Hin.
    assert (F : In (InitDemoBuffer f) (filter is_init_demo_buffer (trace (train rank cfg world)))).
    { apply filter_In. now split. }
    rewrite L in F. apply Z.eqb_neq in H. rewrite H in F. contradiction.
Qed.

Lemma demo_buffer_initialised_once_witness :
  nth_error (trace (train 0 demo_params scenario_world)) 1
  = Some (InitDemoBuffer (Some "demo.npz"%string)).
Proof.
  destruct (demo_buffer_initialised_once 0 demo_params scenario_world) as (_ & H & _).
  apply H. reflexivity.
Defined.

End CallFacts.

(** * Properties of the launcher *)

Import Launcher.

Section EpochBudget.

Local Open Scope Z_scope.

Lemma floordiv_some (a b : Z) : b <> 0 -> floordiv a b = Some (a / b).
Proof. intros H. unfold floordiv. apply Z.eqb_neq in H. now rewrite H. Qed.

Lemma learn_n_epochs_positive (total c T b : Z) :
  0 < c -> 0 < T -> 0 < b ->
  learn_n_epochs total c T b = Some (total / (c * T * b)).
Proof.
  intros Hc HT Hb. unfold learn_n_epochs.
  rewrite !floordiv_some by lia.
  rewrite (Z.div_div total c T) by lia.
  rewrite (Z.div_div total (c * T) b) by lia.
  reflexivity.
Qed.

(** X8: the number of epochs [learn] asks for.  The three floor divisions
    raise [ZeroDivisionError] exactly when [n_cycles], the rollout length T
    or the rollout batch size is 0.  When the three are positive the result
    is the floor of [total_timesteps] by their product: the largest number
    of epochs whose n_cycles * T * batch timesteps fit into the budget, and
    0 or less when the budget is below one epoch. *)
Theorem learn_n_epochs_floor (total c T b : Z) :
  (learn_n_epochs total c T b = None <-> c = 0 \/ T = 0 \/ b = 0)
  /\ (0 < c -> 0 < T -> 0 < b ->
      exists n,
        learn_n_epochs total c T b = Some n
        /\ n * (c * T * b) <= total < (n + 1) * (c * T * b)
        /\ (total < c * T * b -> n <= 0)).
Proof.
  split.
  - unfold learn_n_epochs, floordiv.
    destruct (Z.eqb_spec c 0) as [Hc | Hc]; [split; [now left | reflexivity] |].
    destruct (Z.eqb_spec T 0) as [HT | HT]; [split; [now (right; left) | reflexivity] |].
    destruct (Z.eqb_spec b 0) as [Hb | Hb]; [split; [now (right; right) | reflexivity] |].
    split; [discriminate | lia].
  - intros Hc HT Hb. exists (total / (c * T * b)).
    assert (P : 0 < c * T * b) by (apply Z.mul_pos_pos; [apply Z.mul_pos_pos |]; lia).
    split; [now apply learn_n_epochs_positive |].
    pose proof (Z.mul_div_le total (c * T * b) P) as L.
    pose proof (Z.mul_succ_div_gt total (c * T * b) P) as U.
    split; [lia |].
    intros Hs. apply Z.lt_succ_r. apply Z.div_lt_upper_bound; lia.
Qed.

Lemma learn_n_epochs_floor_witness :
  exists n,
    learn_n_epochs 500000 50 50 2 = Some n
    /\ n * (50 * 50 * 2) <= 500000 < (n + 1) * (50 * 50 * 2)
    /\ (500000 < 50 * 50 * 2 -> n <= 0).
Proof.
  apply (proj2 (learn_n_epochs_floor 500000 50 50 2)); lia.
Defined.

End EpochBudget.

Section LearnFacts.

Local Open Scope Z_scope.

Lemma epochs_entered_le (rank : nat) (cfg : params) (world : nat -> epoch_data) :
  (epochs_entered (result (train rank cfg world)) (n_epochs cfg) <= n_epochs cfg)%nat.
Proof.
  destruct (result (train rank cfg world)) as [|e] eqn:R; cbn [epochs_entered].
  - lia.
  - apply train_aborts_iff in R. lia.
Qed.

Lemma rollouts_of_a_run (rank : nat) (cfg : params) (world : nat -> epoch_data) :
  calls (is_generate_rollouts rollout_worker) (trace (train rank cfg world))
  = (epochs_entered (result (train rank cfg world)) (n_epochs cfg) * n_cycles cfg)%nat.
Proof.
  rewrite (calls_train (is_generate_rollouts rollout_worker) rank cfg world (n_cycles cfg)).
  - rewrite calls_prologue by reflexivity. reflexivity.
  - intros ev H. now destruct ev.
  - intros d epoch. rewrite calls_common by reflexivity. unfold calls. simpl. lia.
Qed.

(** X9: [learn] keeps to its timestep budget.  With positive [n_cycles],
    rollout length T and rollout batch size, and a budget
    [total_timesteps >= 0], the call of [train] is reached, and on every rank
    the rollouts it generates for training, at T * batch timesteps each, stay
    within the budget; a run that returns misses the budget by less than one
    epoch, and a budget below one epoch gives a run that makes no call but
    those before the loop. *)
Theorem learn_keeps_to_budget (rank : nat) (total K : Z) (demo save : option string)
    (p : prepared) (world : nat -> epoch_data) :
  0 < params_n_cycles p -> 0 < worker_T p -> 0 < worker_rollout_batch_size p ->
  0 <= total ->
  exists r : run,
    learn_train rank total K demo save p world = Some r
    /\ Z.of_nat (calls (is_generate_rollouts rollout_worker) (trace r))
         * (worker_T p * worker_rollout_batch_size p) <= total
    /\ (result r = Returned ->
        total < (Z.of_nat (calls (is_generate_rollouts rollout_worker) (trace r))
                 + params_n_cycles p)
                * (worker_T p * worker_rollout_batch_size p))
    /\ (total < params_n_cycles p * worker_T p * worker_rollout_batch_size p ->
        trace r
        = LoggerInfo Training
            :: (if policy_bc_loss p =? 1 then [InitDemoBuffer demo] else [])
        /\ result r = Returned
        /\ best_success_rate r = initial_best_success_rate).
Proof.
  intros Hc HT Hb Ht. unfold learn_train.
  rewrite learn_n_epochs_positive by assumption.
  set (c := params_n_cycles p) in *. set (T := worker_T p) in *.
  set (b := worker_rollout_batch_size p) in *.
  assert (P : 0 < c * T * b) by (apply Z.mul_pos_pos; [apply Z.mul_pos_pos |]; lia).
  set (n := total / (c * T * b)).
  assert (Hn : 0 <= n) by (apply Z.div_pos; lia).
  pose proof (Z.mul_div_le total (c * T * b) P) as L.
  pose proof (Z.mul_succ_div_gt total (c * T * b) P) as U.
  fold n in L, U.
  eexists. split; [reflexivity |].
  set (cfg := {| n_epochs := Z.to_nat n;
                 n_test_rollouts := Z.to_nat (params_n_test_rollouts p);
                 n_cycles := Z.to_nat c;
                 n_batches := Z.to_nat (params_n_batches p);
                 Training.policy_save_interval := K;
                 Training.save_path := save;
                 Training.demo_file := demo;
                 bc_loss := policy_bc_loss p |}).
  rewrite (rollouts_of_a_run rank cfg world).
  pose proof (epochs_entered_le rank cfg world) as E.
  change (n_epochs cfg) with (Z.to_nat n) in *.
  change (n_cycles cfg) with (Z.to_nat c) in *.
  set (entered := epochs_entered (result (train rank cfg world)) (Z.to_nat n)) in *.
  rewrite Nat2Z.inj_mul, (Z2Nat.id c) by lia.
  split; [| split].
  - assert (Z.of_nat entered <= n) by lia.
    replace (Z.of_nat entered * c * (T * b)) with (Z.of_nat entered * (c * T * b)) by ring.
    apply Z.le_trans with (n * (c * T * b)); [| lia].
    apply Z.mul_le_mono_nonneg_r; lia.
  - intros R. unfold entered. rewrite R. cbn [epochs_entered].
    rewrite (Z2Nat.id n) by lia.
    replace ((n * c + c) * (T * b)) with (c * T * b * Z.succ n) by ring. exact U.
  - intros Hs.
    assert (N0 : n = 0) by (apply Z.div_small; lia).
    unfold train. change (n_epochs cfg) with (Z.to_nat n). rewrite N0.
    cbn. rewrite app_nil_r. repeat split.
Qed.

Lemma learn_keeps_to_budget_witness :
  exists r : run,
    learn_train 0 500000 5 None None sample_prepared scenario_world = Some r
    /\ Z.of_nat (calls (is_generate_rollouts rollout_worker) (trace r)) * (50 * 2)
       <= 500000.
Proof.
  destruct (learn_keeps_to_budget 0 500000 5 None None sample_prepared scenario_world)
    as (r & Hr & Hl & _); try (cbn; lia).
  exists r. split; [exact Hr | exact Hl].
Defined.

End LearnFacts.

Section DictFacts.

Lemma getitem_setitem (d : dict) (k k' : string) (v : pyval) :
  getitem (setitem d k v) k' = if String.eqb k' k then Some v else getitem d k'.
Proof.
  induction d as [|[k0 v0] d IH]; simpl.
  - reflexivity.
  - destruct (String.eqb_spec k k0) as [-> | Hk]; simpl.
    + now destruct (String.eqb k' k0).
    + destruct (String.eqb_spec k' k0) as [-> | Hk'].
      * destruct (String.eqb_spec k0 k) as [E | _]; [now subst | reflexivity].
      * exact IH.
Qed.

Lemma getitem_none (d : dict) (k : string) :
  getitem d k = None <-> ~ In k (keys d).
Proof.
  induction d as [|[k0 v0] d IH]; simpl.
  - tauto.
  - destruct (String.eqb_spec k k0) as [-> | Hk].
    + split; [discriminate | intros H; exfalso; apply H; now left].
    + rewrite IH. split.
      * intros H [E | E]; [now subst | contradiction].
      * intros H E. apply H. now right.
Qed.

(** The keys of a dictionary after an assignment: an existing key keeps its
    place, a new one is appended. *)
Lemma keys_setitem (d : dict) (k : string) (v : pyval) :
  keys (setitem d k v) = if contains d k then keys d else (keys d ++ [k])%list.
Proof.
  unfold contains. induction d as [|[k0 v0] d IH]; simpl.
  - reflexivity.
  - destruct (String.eqb_spec k k0) as [-> | Hk]; simpl.
    + reflexivity.
    + rewrite IH. now destruct (getitem d k).
Qed.

Lemma setitem_nodup (d : dict) (k : string) (v : pyval) :
  NoDup (keys d) -> NoDup (keys (setitem d k v)).
Proof.
  intros H. rewrite keys_setitem. unfold contains.
  destruct (getitem d k) eqn:E; [exact H |].
  apply getitem_none in E.
  apply NoDup_app; [exact H | repeat constructor; now intros [] |].
  intros x Hx [<- | []]. contradiction.
Qed.

Lemma update_nodup (other d : dict) :
  NoDup (keys d) -> NoDup (keys (update d other)).
Proof.
  unfold update. revert d. induction other as [|[k v] other IH]; intros d H; simpl.
  - exact H.
  - apply IH. now apply setitem_nodup.
Qed.

(** A lookup after [update]: the other dictionary first. *)
Lemma getitem_update (other d : dict) (k : string) :
  NoDup (keys other) ->
  getitem (update d other) k
  = match getitem other k with
    | Some v => Some v
    | None => getitem d k
    end.
Proof.
  unfold update. revert d. induction other as [|[k0 v0] other IH]; intros d H; simpl.
  - reflexivity.
  - inversion H as [|? ? Hk0 Hnd]; subst.
    rewrite (IH _ Hnd), getitem_setitem.
    destruct (String.eqb_spec k k0) as [-> | Hk].
    + apply getitem_none in Hk0. now rewrite Hk0.
    + reflexivity.
Qed.

(** The parameters of the environment that line 146 merges in, if any. *)
Lemma merge_params_lookup (D : dict) (E : list (string * dict))
    (env_name replay_strategy : string) (override : option dict) (k : string) :
  (forall name d, In (name, d) E -> NoDup (keys d)) ->
  NoDup (keys (match override with Some d => d | None => [] end)) ->
  getitem (merge_params D E env_name replay_strategy override) k
  = match getitem (match override with Some d => d | None => [] end) k with
    | Some v => Some v
    | None =>
        match getitem
                (match find (fun entry => String.eqb env_name (fst entry)) E with
                 | Some entry => snd entry
                 | None => []
                 end) k with
        | Some v => Some v
        | None =>
            if String.eqb k "replay_strategy" then Some (PStr replay_strategy)
            else if String.eqb k "env_name" then Some (PStr env_name)
            else getitem D k
        end
    end.
Proof.
  intros HE Ho. unfold merge_params.
  rewrite (getitem_update _ _ k Ho).
  destruct (getitem (match override with Some d => d | None => [] end) k); [reflexivity |].
  destruct (find (fun entry => String.eqb env_name (fst entry)) E) as [[name d] |] eqn:F.
  - apply find_some in F as [Hin _]. simpl snd.
    rewrite (getitem_update _ _ k (HE name d Hin)).
    destruct (getitem d k); [reflexivity |].
    now rewrite !getitem_setitem.
  - simpl. now rewrite !getitem_setitem.
Qed.

(** X10: the precedence of the parameter sources in the dictionary that
    [learn] writes to [params.json].  A key is looked up first in
    [override_params], then in the parameters of the environment (if
    [DEFAULT_ENV_PARAMS] has an entry for [env.spec.id]), then among
    [replay_strategy] and [env_name] as passed to [learn], and last in
    [DEFAULT_PARAMS]; so an override may replace even [env_name] and
    [replay_strategy], the defaults of those two keys are never used, and the
    merge keeps the keys unique. *)
Theorem merge_params_precedence (D : dict) (E : list (string * dict))
    (env_name replay_strategy : string) (override : dict) :
  NoDup (keys D) ->
  (forall name d, In (name, d) E -> NoDup (keys d)) ->
  NoDup (keys override) ->
  (forall k v,
      getitem override k = Some v ->
      getitem (merge_params D E env_name replay_strategy (Some override)) k = Some v)
  /\ (forall name d k v,
        find (fun entry => String.eqb env_name (fst entry)) E = Some (name, d) ->
        getitem override k = None -> getitem d k = Some v ->
        getitem (merge_params D E env_name replay_strategy (Some override)) k = Some v)
  /\ (forall k,
        getitem override k = None ->
        (forall name d,
            find (fun entry => String.eqb env_name (fst entry)) E = Some (name, d) ->
            getitem d k = None) ->
        getitem (merge_params D E env_name replay_strategy (Some override)) k
        = if String.eqb k "replay_strategy" then Some (PStr replay_strategy)
          else if String.eqb k "env_name" then Some (PStr env_name)
          else getitem D k)
  /\ getitem (merge_params D E env_name replay_strategy None) "env_name"
     = match find (fun entry => String.eqb env_name (fst entry)) E with
       | Some entry =>
           match getitem (snd entry) "env_name" with
           | Some v => Some v
           | None => Some (PStr env_name)
           end
       | None => Some (PStr env_name)
       end
  /\ NoDup (keys (merge_params D E env_name replay_strategy (Some override))).
Proof.
  intros HD HE Ho.
  assert (L : forall k,
             getitem (merge_params D E env_name replay_strategy (Some override)) k
             = match getitem override k with
               | Some v => Some v
               | None =>
                   match getitem
                           (match find (fun entry => String.eqb env_name (fst entry)) E with
                            | Some entry => snd entry
                            | None => []
                            end) k with
                   | Some v => Some v
                   | None =>
                       if String.eqb k "replay_strategy" then Some (PStr replay_strategy)
                       else if String.eqb k "env_name" then Some (PStr env_name)
                       else getitem D k
                   end
               end).
  { intros k. now apply (merge_params_lookup D E env_name replay_strategy (Some override) k). }
  split; [| split; [| split; [| split]]].
  - intros k v H. now rewrite L, H.
  - intros name d k v F Hn Hd. rewrite L, Hn, F. simpl snd. now rewrite Hd.
  - intros k Hn Hd. rewrite L, Hn.
    destruct (find (fun entry => String.eqb env_name (fst entry)) E) as [[name d] |] eqn:F.
    + simpl snd. now rewrite (Hd name d eq_refl).
    + reflexivity.
  - rewrite (merge_params_lookup D E env_name replay_strategy None "env_name" HE);
      [| constructor].
    simpl getitem at 1.
    destruct (find (fun entry => String.eqb env_name (fst entry)) E) as [[name d] |].
    + simpl snd. now destruct (getitem d "env_name").
    + reflexivity.
  - unfold merge_params. apply update_nodup.
    destruct (find (fun entry => String.eqb env_name (fst entry)) E) as [[name d] |].
    + apply update_nodup. now repeat apply setitem_nodup.
    + now repeat apply setitem_nodup.
Qed.

Lemma merge_params_precedence_witness :
  getitem (merge_params sample_defaults sample_env_params "FetchReach-v1" "future"
             (Some sample_override)) "n_cycles" = Some (PInt 20)
  /\ getitem (merge_params sample_defaults sample_env_params "FetchReach-v1" "future"
                (Some sample_override)) "env_name" = Some (PStr "x").
Proof.
  assert (HD : NoDup (keys sample_defaults)).
  { repeat constructor; simpl; intuition discriminate. }
  assert (HE : forall name d, In (name, d) sample_env_params -> NoDup (keys d)).
  { intros name d [H | []]. injection H as _ <-. repeat constructor. now intros []. }
  assert (Ho : NoDup (keys sample_override)).
  { repeat constructor; simpl; intuition discriminate. }
  destruct (merge_params_precedence sample_defaults sample_env_params "FetchReach-v1"
              "future" sample_override HD HE Ho) as (H & _).
  split; apply H; reflexivity.
Defined.

(** X11: the keyword arguments of [learn] have the last word on the
    prepared parameters: a key of [kwargs] gets the value given there, even
    [bc_loss] and [rollout_batch_size]; otherwise [bc_loss] is 1 whenever a
    demonstration file is given (and whatever [prepare_params] returned if
    none is), [rollout_batch_size] is the number of environments, and every
    other key keeps its prepared value. *)
Theorem finish_params_lookup (prepared : dict) (num_envs : Z)
    (demo : option string) (kwargs : dict) (k : string) :
  NoDup (keys kwargs) ->
  getitem (finish_params prepared num_envs demo kwargs) k
  = match getitem kwargs k with
    | Some v => Some v
    | None =>
        if String.eqb k "bc_loss" then
          match demo with
          | Some _ => Some (PInt 1)
          | None => getitem prepared "bc_loss"
          end
        else if String.eqb k "rollout_batch_size" then Some (PInt num_envs)
        else getitem prepared k
    end.
Proof.
  intros Hk. unfold finish_params. rewrite (getitem_update _ _ k Hk).
  destruct (getitem kwargs k); [reflexivity |].
  destruct demo; rewrite !getitem_setitem.
  - reflexivity.
  - destruct (String.eqb_spec k "bc_loss") as [-> | _]; reflexivity.
Qed.

Lemma finish_params_lookup_witness :
  getitem (finish_params sample_defaults 4 (Some "demo.npz"%string)
             [("bc_loss"%string, PInt 0)]) "bc_loss"
  = Some (PInt 0).
Proof.
  rewrite (finish_params_lookup sample_defaults 4 (Some "demo.npz"%string)
             [("bc_loss"%string, PInt 0)] "bc_loss").
  - reflexivity.
  - repeat constructor. now intros [].
Defined.

Lemma copy_names_none (params : dict) (names : list string) :
  forall target : dict,
    copy_names params names target = None
    <-> exists name, In name names /\ getitem params name = None.
Proof.
  induction names as [|name names IH]; intros target; simpl.
  - split; [discriminate | intros (n & [] & _)].
  - destruct (getitem params name) as [v |] eqn:G.
    + rewrite IH. split.
      * intros (n & Hn & Hg). exists n. split; [now right | exact Hg].
      * intros (n & [<- | Hn] & Hg); [congruence |]. now exists n.
    + split; [| reflexivity]. intros _. exists name. split; [now left | exact G].
Qed.

(** X12: the keyword arguments of the two rollout workers.  Building them
    fails with a [KeyError] exactly when the parameters lack one of T,
    rollout_batch_size, gamma, noise_eps and random_eps, or, for the
    evaluator, test_with_polyak.  Otherwise the two dictionaries have the
    same nine keys and agree with the parameters on the five copied names;
    the training worker explores, does not use the target network, uses the
    demonstration states and does not compute Q, while the evaluator exploits,
    uses the target network as [test_with_polyak] says, does not use the
    demonstration states and computes Q. *)
Theorem worker_params_built (params : dict) :
  (rollout_params params = None
   <-> exists name, In name copied_names /\ getitem params name = None)
  /\ (eval_params params = None
      <-> getitem params "test_with_polyak" = None
          \/ exists name, In name copied_names /\ getitem params name = None)
  /\ (forall r e,
        rollout_params params = Some r -> eval_params params = Some e ->
        keys r = ["exploit"; "use_target_net"; "use_demo_states"; "compute_Q"; "T";
                  "rollout_batch_size"; "gamma"; "noise_eps"; "random_eps"]%string
        /\ keys e = keys r
        /\ (forall name, In name copied_names ->
               getitem r name = getitem params name
               /\ getitem e name = getitem params name)
        /\ getitem r "exploit" = Some (PBool false)
        /\ getitem e "exploit" = Some (PBool true)
        /\ getitem r "use_target_net" = Some (PBool false)
        /\ getitem e "use_target_net" = getitem params "test_with_polyak"
        /\ getitem r "use_demo_states" = Some (PBool true)
        /\ getitem e "use_demo_states" = Some (PBool false)
        /\ getitem r "compute_Q" = Some (PBool false)
        /\ getitem e "compute_Q" = Some (PBool true)).
Proof.
  split; [| split].
  - unfold rollout_params. destruct (getitem params "T") as [T |] eqn:GT.
    + apply copy_names_none.
    + split; [| reflexivity]. intros _. exists "T"%string. split; [now left | exact GT].
  - unfold eval_params. destruct (getitem params "test_with_polyak") as [pk |] eqn:GP.
    + destruct (getitem params "T") as [T |] eqn:GT.
      * rewrite copy_names_none. split; [now right | intros [H | H]; [discriminate | exact H]].
      * split; [| reflexivity]. intros _. right.
        exists "T"%string. split; [now left | exact GT].
    + split; [now left | reflexivity].
  - intros r e. unfold rollout_params, eval_params, copied_names. simpl copy_names.
    destruct (getitem params "test_with_polyak") as [pk |] eqn:GP; [| discriminate 2].
    destruct (getitem params "T") as [T |] eqn:GT; [| discriminate 1].
    destruct (getitem params "rollout_batch_size") as [rb |] eqn:GR; [| discriminate 1].
    destruct (getitem params "gamma") as [ga |] eqn:GG; [| discriminate 1].
    destruct (getitem params "noise_eps") as [ne |] eqn:GN; [| discriminate 1].
    destruct (getitem params "random_eps") as [re |] eqn:GE; [| discriminate 1].
    intros [= <-] [= <-]. cbn.
    repeat split; try reflexivity.
    + destruct H as [<- | [<- | [<- | [<- | [<- | []]]]]]; cbn; congruence.
    + destruct H as [<- | [<- | [<- | [<- | [<- | []]]]]]; cbn; congruence.
Qed.

Lemma worker_params_built_witness :
  exists r e : dict,
    rollout_params sample_defaults = Some r
    /\ eval_params sample_defaults = Some e
    /\ keys e = keys r.
Proof.
  eexists. eexists. split; [reflexivity |]. split; [reflexivity |].
  destruct (worker_params_built sample_defaults) as (_ & _ & H).
  destruct (H _ _ eq_refl eq_refl) as (_ & K & _). exact K.
Defined.

End DictFacts.

(** * Further properties of the aggregation *)

Section AggregationFacts.

Local Open Scope Q_scope.

Lemma local_array_sum (v : value) : sumQ (local_array v) == sumQ (as_list v).
Proof.
  unfold local_array. destruct (any (as_list v)) eqn:E; simpl.
  - reflexivity.
  - rewrite (sumQ_zero (as_list v)); [reflexivity | now apply any_false].
Qed.

Lemma local_array_length (v : value) :
  length (local_array v) = if any (as_list v) then length (as_list v) else 1%nat.
Proof. unfold local_array. now destruct (any (as_list v)). Qed.

Lemma mpi_average_count_length (comm : list value) :
  mpi_average_count comm = Z.of_nat (length (concat (map local_array comm))).
Proof.
  unfold mpi_average_count, mpi_moments_count, mpi_mean. simpl.
  apply allreduce_sum_concat.
Qed.

Lemma concat_local_arrays_sum (comm : list value) :
  sumQ (concat (map local_array comm)) == sumQ (concat (map as_list comm)).
Proof.
  induction comm as [|v comm IH]; simpl; [reflexivity |].
  now rewrite !sumQ_app, local_array_sum, IH.
Qed.

Lemma concat_local_arrays_count (comm : list value) :
  (length comm <= length (concat (map local_array comm)))%nat.
Proof.
  induction comm as [|v comm IH]; simpl; [lia |].
  rewrite length_app. pose proof (local_array_nonempty v) as N.
  destruct (local_array v); [contradiction | simpl; lia].
Qed.

(** X13: what [mpi_average] hands to the reduction.  The array of a rank is
    never empty and always has the sum of the rank's values; only its length
    can differ from the number of values, being 1 when no value is non-zero.
    So the reduction counts at least one value per rank (no division by
    zero with at least one rank), and the result is the sum of all values of
    all ranks divided by that count. *)
Theorem mpi_average_sum_over_count (comm : list value) :
  (forall v, local_array v <> []
             /\ sumQ (local_array v) == sumQ (as_list v)
             /\ length (local_array v)
                = if any (as_list v) then length (as_list v) else 1%nat)
  /\ (Z.of_nat (length comm) <= mpi_average_count comm)%Z
  /\ mpi_average comm
     == sumQ (concat (map as_list comm)) / inject_Z (mpi_average_count comm).
Proof.
  split; [| split].
  - intros v. split; [apply local_array_nonempty |].
    split; [apply local_array_sum | apply local_array_length].
  - rewrite mpi_average_count_length. pose proof (concat_local_arrays_count comm). lia.
  - rewrite mpi_average_local_arrays, mpi_average_count_length. unfold mean.
    now rewrite concat_local_arrays_sum.
Qed.

Lemma concat_local_arrays_shorter (comm : list value) :
  Forall (fun v => as_list v <> []) comm ->
  (length (concat (map local_array comm)) <= length (concat (map as_list comm)))%nat.
Proof.
  induction 1 as [|v comm Hv _ IH]; simpl; [lia |].
  rewrite !length_app, local_array_length.
  destruct (any (as_list v)); [lia |].
  destruct (as_list v); [contradiction | simpl; lia].
Qed.

Lemma sumQ_nonneg (xs : list Q) : Forall (fun x => 0 <= x) xs -> 0 <= sumQ xs.
Proof.
  induction 1 as [|x xs Hx _ IH]; simpl; [apply Qle_refl |].
  replace 0 with (0 + 0) by reflexivity. now apply Qplus_le_compat.
Qed.

(** X14: the substitution can only raise the average of non-negative
    metrics.  When every rank holds a non-empty list of non-negative values
    (and there is at least one rank), [mpi_average] is at least the
    arithmetic mean of all the values: all-zero lists are counted once
    instead of as often as they have entries, which shrinks the divisor and
    leaves the sum alone. *)
Theorem mpi_average_overestimates (comm : list value) :
  comm <> [] ->
  Forall (fun v => as_list v <> []) comm ->
  Forall (fun x => 0 <= x) (concat (map as_list comm)) ->
  mean (concat (map as_list comm)) <= mpi_average comm.
Proof.
  intros Hne Hl Hp.
  rewrite mpi_average_local_arrays. unfold mean. rewrite concat_local_arrays_sum.
  pose proof (concat_local_arrays_shorter comm Hl) as Hs.
  pose proof (concat_local_arrays_count comm) as Hc.
  pose proof (sumQ_nonneg _ Hp) as HS.
  set (S := sumQ (concat (map as_list comm))) in *.
  set (a := length (concat (map as_list comm))) in *.
  set (b := length (concat (map local_array comm))) in *.
  assert (Hb : (0 < b)%nat) by (destruct comm; [contradiction | simpl in Hc; lia]).
  assert (Qb : 0 < inject_Z (Z.of_nat b)).
  { change 0 with (inject_Z 0). rewrite <- Zlt_Qlt. lia. }
  assert (Qa : 0 < inject_Z (Z.of_nat a)).
  { change 0 with (inject_Z 0). rewrite <- Zlt_Qlt. lia. }
  assert (Qab : inject_Z (Z.of_nat b) <= inject_Z (Z.of_nat a)).
  { rewrite <- Zle_Qle. lia. }
  apply Qle_shift_div_r; [exact Qa |].
  set (t := S / inject_Z (Z.of_nat b)).
  assert (Ht : 0 <= t).
  { apply Qle_shift_div_l; [exact Qb |]. now rewrite Qmult_0_l. }
  assert (Et : S == t * inject_Z (Z.of_nat b)).
  { unfold t. field. intros Z0. rewrite Z0 in Qb. now apply Qlt_irrefl in Qb. }
  rewrite Et at 1. apply Qmult_le_compat_nonneg.
  - split; [exact Ht | apply Qle_refl].
  - split; [now apply Qlt_le_weak | exact Qab].
Qed.

Lemma mpi_average_overestimates_witness :
  mean (concat (map as_list [Values [0; 0]; Values [1; 1]]))
  <= mpi_average [Values [0; 0]; Values [1; 1]].
Proof.
  apply mpi_average_overestimates.
  - discriminate.
  - repeat constructor; discriminate.
  - repeat constructor; discriminate.
Defined.

Lemma sumQ_bounds (lo hi : Q) (xs : list Q) :
  Forall (fun x => lo <= x <= hi) xs ->
  lo * inject_Z (Z.of_nat (length xs)) <= sumQ xs
  /\ sumQ xs <= hi * inject_Z (Z.of_nat (length xs)).
Proof.
  induction 1 as [|x xs [Hl Hh] _ [IHl IHh]].
  - simpl. rewrite !Qmult_0_r. split; apply Qle_refl.
  - cbn [length sumQ fold_right]. fold (sumQ xs).
    rewrite Nat2Z.inj_succ, <- Z.add_1_l, inject_Z_plus.
    change (inject_Z 1) with 1. rewrite !Qmult_plus_distr_r, !Qmult_1_r.
    split; now apply Qplus_le_compat.
Qed.

Lemma mean_bounds (lo hi : Q) (xs : list Q) :
  xs <> [] -> Forall (fun x => lo <= x <= hi) xs -> lo <= mean xs <= hi.
Proof.
  intros Hne Hb. destruct (sumQ_bounds lo hi xs Hb) as [Hl Hh].
  assert (Qn : 0 < inject_Z (Z.of_nat (length xs))).
  { change 0 with (inject_Z 0). rewrite <- Zlt_Qlt.
    destruct xs; [contradiction | simpl; lia]. }
  unfold mean. split.
  - now apply Qle_shift_div_l.
  - now apply Qle_shift_div_r.
Qed.

(** X15: the way [train] uses the aggregation.  When every rank passes one
    scalar and there is at least one rank, the result is the arithmetic mean
    of the scalars and lies within any bounds that hold for all of them.  So
    if the success rates of the ranks lie in [0, 1], the aggregated rate of
    epoch 0 beats the sentinel -1: with a checkpoint directory (without
    braces in its name) the coordinator always writes the best and the
    latest policy in epoch 0, before the periodic file of epoch 0 if that is
    due. *)
Theorem first_epoch_is_a_new_best (cfg : params) (world : nat -> epoch_data)
    (rates : list Q) :
  rates <> [] ->
  Forall (fun x => 0 <= x <= 1) rates ->
  current_success_rate (world 0%nat) = map Scalar rates ->
  configured (save_path cfg) = true ->
  brace_free (save_dir (save_path cfg)) = true ->
  success_rate world 0 == mean rates
  /\ 0 <= success_rate world 0 <= 1
  /\ saves (epoch_trace 0 cfg world 0)
     = ([best_policy_path (save_dir (save_path cfg));
         latest_policy_path (save_dir (save_path cfg))]
        ++ (if is_periodic 0 cfg 0
            then [periodic_policy_path (save_dir (save_path cfg)) 0]
            else []))%list
  /\ request_periodic 0 cfg 0
     = (if is_periodic 0 cfg 0
        then Save (periodic_policy_path (save_dir (save_path cfg)) 0)
        else NoSave)
  /\ best_before 0 cfg world 1 = success_rate world 0.
Proof.
  intros Hne Hb Hw Hc Hf.
  assert (E : success_rate world 0 == mean rates).
  { unfold success_rate. rewrite Hw. apply mpi_average_scalars. }
  assert (B : 0 <= success_rate world 0 <= 1).
  { rewrite E. now apply mean_bounds. }
  assert (N : is_new_best 0 cfg (success_rate world 0) (best_before 0 cfg world 0) = true).
  { apply is_new_best_rank0; [exact Hc |]. cbn [best_before].
    apply Qle_trans with 0; [discriminate | apply B]. }
  split; [exact E |]. split; [exact B |]. split; [| split].
  - unfold epoch_trace. rewrite saves_epoch_step.
    unfold success_rate in N. now rewrite N.
  - now apply request_periodic_brace_free.
  - cbn [best_before] in *. unfold update_best. now rewrite N.
Qed.

Lemma first_epoch_is_a_new_best_witness :
  saves (epoch_trace 0 scenario_params scenario_world 0)
  = ["ckpt/policy_best.pkl"%string; "ckpt/policy_latest.pkl"%string].
Proof.
  destruct (first_epoch_is_a_new_best scenario_params scenario_world [2 # 10])
    as (_ & _ & H & _).
  - discriminate.
  - repeat constructor; discriminate.
  - reflexivity.
  - reflexivity.
  - reflexivity.
  - exact H.
Defined.

End AggregationFacts.

(** * Runs and seeds *)

Section RunFacts.




Local Open Scope Z_scope.

(** X17: seeds across runs.  The seeds of rank [r] of a run with base seed
    [s] and of rank [r'] of a run with base seed [s'] coincide exactly when
    [s - s'] is [1000000 * (r' - r)].  So base seeds less than 1000000 apart
    never share a seed unless both the base seed and the rank agree, while
    base seeds 1000000 apart do: rank 1 of the one run gets the seed of
    rank 0 of the other. *)
Theorem rank_seeds_across_runs (s s' : Z) (r r' : nat) :
  (rank_seed (Some s) r = rank_seed (Some s') r'
   <-> s - s' = 1000000 * (Z.of_nat r' - Z.of_nat r))
  /\ (Z.abs (s - s') < 1000000 ->
      rank_seed (Some s) r = rank_seed (Some s') r' -> s = s' /\ r = r')
  /\ rank_seed (Some s) 1 = rank_seed (Some (s + 1000000)) 0.
Proof.
  assert (I : rank_seed (Some s) r = rank_seed (Some s') r'
              <-> s - s' = 1000000 * (Z.of_nat r' - Z.of_nat r)).
  { unfold rank_seed. split.
    - intros H.
      assert (E : s + 1000000 * Z.of_nat r = s' + 1000000 * Z.of_nat r').
      { exact (f_equal (fun o => match o with Some z => z | None => 0 end) H). }
      lia.
    - intros H. f_equal. lia. }
  split; [exact I |]. split.
  - intros Ha H. apply I in H. lia.
  - unfold rank_seed. f_equal. lia.
Qed.

End RunFacts.
